(** * node-apn: lib/connection.js

    A shallow embedding of the [Connection] object of lib/connection.js and
    the properties of its transmission cache, replay of notifications after
    an error frame, identifier assignment, frame encoding and reconnection.

    Every method of [Connection.prototype] is a computation over the
    connection object that may raise a JavaScript exception and that logs the
    effects it has on the outside world (the socket, the timers, the
    application's error callback, the caller's notification objects). *)

From Stdlib Require Import ZArith Lia Bool.
From stdpp Require Import base list.

Local Open Scope Z_scope.

(** ** Node's Buffer

    A buffer is a fixed-length sequence of bytes, each byte a number in
    0..255 held in a [Z].  Indexed stores beyond the end are dropped, as for
    any Node buffer; the [write*] accessors check their arguments and raise
    where Node's assertions do. *)
Module Buffer.

Abbreviation t := (list Z).

(** [new Buffer(size)]: the memory is not cleared, [junk] is whatever it
    held before. *)
Definition alloc (junk : list Z) (size : nat) : t :=
  take size (junk ++ replicate size 0).

(** [buffer[offset] = value] *)
Definition set (offset : nat) (value : Z) (buffer : t) : t :=
  <[offset := value]> buffer.

(** The check Node makes on the value of an unsigned write. *)
Definition verifuint (value max : Z) : bool :=
  (0 <=? value) && (value <=? max).

Definition writeUInt16BE (value : Z) (offset : nat) (buffer : t) : option t :=
  if verifuint value 0xffff && (offset + 1 <? length buffer)%nat then
    Some (set (offset + 1) (Z.land value 0x00ff)
           (set offset (Z.shiftr (Z.land value 0xff00) 8) buffer))
  else None.

Definition writeUInt32BE (value : Z) (offset : nat) (buffer : t) : option t :=
  if verifuint value 0xffffffff && (offset + 3 <? length buffer)%nat then
    Some (set (offset + 3) (Z.land value 0xff)
           (set (offset + 2) (Z.land (Z.shiftr value 8) 0xff)
             (set (offset + 1) (Z.land (Z.shiftr value 16) 0xff)
               (set offset (Z.land (Z.shiftr value 24) 0xff) buffer))))
  else None.

Definition readUInt32BE (offset : nat) (buffer : t) : option Z :=
  match buffer !! offset, buffer !! (offset + 1)%nat,
        buffer !! (offset + 2)%nat, buffer !! (offset + 3)%nat with
  | Some b0, Some b1, Some b2, Some b3 =>
      let val := Z.lor (Z.lor (Z.shiftl b1 16) (Z.shiftl b2 8)) b3 in
      Some (val + Z.shiftl b0 24)
  | _, _, _, _ => None
  end.

(** [source.copy(target, targetStart, 0)] and
    [target.write(string, offset, encoding)], on the bytes of the string:
    the bytes that fit are stored, their number is returned. *)
Definition copy (source : list Z) (targetStart : nat) (target : t) : t * nat :=
  (list_inserts targetStart source target,
   Nat.min (length source) (length target - targetStart)).

(** The bytes [writeUInt16BE] and [writeUInt32BE] store, in the order of
    their offsets. *)
Definition u16be (v : Z) : list Z :=
  [Z.shiftr (Z.land v 0xff00) 8; Z.land v 0x00ff].

Definition u32be (v : Z) : list Z :=
  [Z.land (Z.shiftr v 24) 0xff; Z.land (Z.shiftr v 16) 0xff;
   Z.land (Z.shiftr v 8) 0xff; Z.land v 0xff].

End Buffer.

(** ** Data model *)

(** [notification.device], the object that holds the token: [token] is
    the Buffer [device.token], or [None] when it is [undefined]. *)
Record Device := mkDevice {
  token : option (list Z)
}.

(** A notification as [sendNotification] reads it.  [device] is
    [notification.device] ([None] when the notification has none, so that
    reading [notification.device.token] raises a TypeError); [message]
    holds the bytes of [JSON.stringify(notification)] in the notification's
    encoding, so that [Buffer.byteLength(message, encoding)] is its length;
    [_uid] is the identifier [sendNotification] stores in the object.

    A value of this type is a notification as it is at one moment, and
    the store of [_uid] into the caller's object is the effect [EvSetUid].
    The cache and the buffer hold such values, where the code holds
    references: should the application submit an object that the cache or
    the buffer still holds, the store of its new [_uid] shows in those
    entries of the code too, while here they keep the value they had.  A
    statement that depends on it asks that the notification is not
    already held. *)
Record Notification := mkNotification {
  device : option Device;
  message : list Z;
  expiry : Z;
  _uid : option Z
}.

(** [notification.device.token] where it can be read and is a Buffer. *)
Definition device_token (n : Notification) : option (list Z) :=
  match device n with
  | Some d => token d
  | None => None
  end.

Definition set_uid (uid : Z) (n : Notification) : Notification :=
  {| device := device n; message := message n;
     expiry := expiry n; _uid := Some uid |}.

(** The entries of [this.options] the connection logic reads.
    [errorCallback] tells whether [typeof options.errorCallback] is
    ['function']; [cacheLength] and [connectionTimeout] are integers. *)
Record Options := mkOptions {
  enhanced : bool;
  errorCallback : bool;
  cacheLength : Z;
  opt_connectionTimeout : Z
}.

(** What the connection observes of the TLS stream. *)
Record Socket := mkSocket {
  bufferSize : Z;
  writable : bool;
  authorized : bool
}.

(** A deferred of the q library: the state of its promise and the
    notifications whose [then] callback waits for it. *)
Inductive PromiseState := Pending | Fulfilled | Rejected.

Record Deferred := mkDeferred {
  d_state : PromiseState;
  d_thens : list Notification
}.

(** The fields of a [Connection], and [q_scheduled]: the [then] callbacks
    of [sendNotification] that q has scheduled to run on a fulfilled
    connection promise.  [connectionTimeout] tells whether the field holds a
    timer handle. *)
Record Connection := mkConnection {
  options : Options;
  currentId : Z;
  cachedNotifications : list Notification;
  notificationBuffer : list Notification;
  socket : option Socket;
  deferredConnection : option Deferred;
  connectionTimeout : bool;
  q_scheduled : list Notification
}.

(** [new Connection(options)] *)
Definition new_Connection (o : Options) : Connection :=
  {| options := o; currentId := 0; cachedNotifications := [];
     notificationBuffer := []; socket := None; deferredConnection := None;
     connectionTimeout := false; q_scheduled := [] |}.

Definition with_currentId (v : Z) (c : Connection) : Connection :=
  {| options := options c; currentId := v;
     cachedNotifications := cachedNotifications c;
     notificationBuffer := notificationBuffer c; socket := socket c;
     deferredConnection := deferredConnection c;
     connectionTimeout := connectionTimeout c; q_scheduled := q_scheduled c |}.

Definition with_cachedNotifications (v : list Notification) (c : Connection)
  : Connection :=
  {| options := options c; currentId := currentId c;
     cachedNotifications := v;
     notificationBuffer := notificationBuffer c; socket := socket c;
     deferredConnection := deferredConnection c;
     connectionTimeout := connectionTimeout c; q_scheduled := q_scheduled c |}.

Definition with_notificationBuffer (v : list Notification) (c : Connection)
  : Connection :=
  {| options := options c; currentId := currentId c;
     cachedNotifications := cachedNotifications c;
     notificationBuffer := v; socket := socket c;
     deferredConnection := deferredConnection c;
     connectionTimeout := connectionTimeout c; q_scheduled := q_scheduled c |}.

Definition with_socket (v : option Socket) (c : Connection) : Connection :=
  {| options := options c; currentId := currentId c;
     cachedNotifications := cachedNotifications c;
     notificationBuffer := notificationBuffer c; socket := v;
     deferredConnection := deferredConnection c;
     connectionTimeout := connectionTimeout c; q_scheduled := q_scheduled c |}.

Definition with_deferredConnection (v : option Deferred) (c : Connection)
  : Connection :=
  {| options := options c; currentId := currentId c;
     cachedNotifications := cachedNotifications c;
     notificationBuffer := notificationBuffer c; socket := socket c;
     deferredConnection := v;
     connectionTimeout := connectionTimeout c; q_scheduled := q_scheduled c |}.

Definition with_connectionTimeout (v : bool) (c : Connection) : Connection :=
  {| options := options c; currentId := currentId c;
     cachedNotifications := cachedNotifications c;
     notificationBuffer := notificationBuffer c; socket := socket c;
     deferredConnection := deferredConnection c;
     connectionTimeout := v; q_scheduled := q_scheduled c |}.

Definition with_q_scheduled (v : list Notification) (c : Connection)
  : Connection :=
  {| options := options c; currentId := currentId c;
     cachedNotifications := cachedNotifications c;
     notificationBuffer := notificationBuffer c; socket := socket c;
     deferredConnection := deferredConnection c;
     connectionTimeout := connectionTimeout c; q_scheduled := v |}.

(** The table of error codes of lib/errors.js, of which connection.js reads
    three entries. *)
Record ErrorsTable := mkErrors {
  none : Z;
  missingDeviceToken : Z;
  invalidPayloadSize : Z
}.

(** ** Effects *)

(** What a method does to the world outside the connection object. *)
Inductive event :=
| EvErrorCallback (errorCode : Z) (notification : option Notification)
    (* options.errorCallback(errorCode, notification); None is null *)
| EvSetUid (notification : Notification) (uid : Z)
    (* notification._uid = uid, on the caller's object *)
| EvWrite (data : list Z)          (* socket.write(data) *)
| EvDestroySoon                    (* socket.destroySoon() *)
| EvRemoveAllListeners             (* socket.removeAllListeners() *)
| EvClearTimeout                   (* clearTimeout(connectionTimeout) *)
| EvSetTimeout                     (* setTimeout(destroyConnection, ...) *)
| EvInitialize                     (* initialize().then(...): an attempt to connect begins *)
| EvTlsConnect.                    (* tls.connect(port, gateway, ...) *)

Inductive exn := TypeError | AssertionError.

Inductive outcome (A : Type) :=
| Normal (a : A)
| Throws (e : exn).
Arguments Normal {A} a.
Arguments Throws {A} e.

(** A method body: from the connection object to its outcome, the updated
    object and the effects, in order.  An exception keeps the updates and
    the effects made before it. *)
Definition M (A : Type) : Type :=
  Connection -> outcome A * Connection * list event.

Definition ret {A} (a : A) : M A := fun c => (Normal a, c, []).

Definition bind {A B} (m : M A) (k : A -> M B) : M B :=
  fun c =>
    match m c with
    | (Normal a, c1, es1) =>
        match k a c1 with
        | (r, c2, es2) => (r, c2, es1 ++ es2)
        end
    | (Throws e, c1, es1) => (Throws e, c1, es1)
    end.

Definition this : M Connection := fun c => (Normal c, c, []).
Definition update (f : Connection -> Connection) : M unit :=
  fun c => (Normal tt, f c, []).
Definition emit (e : event) : M unit := fun c => (Normal tt, c, [e]).
Definition throw {A} (e : exn) : M A := fun c => (Throws e, c, []).

Definition when_ (b : bool) (m : M unit) : M unit :=
  if b then m else ret tt.

(** The truth value of a field that holds an object or [undefined]. *)
Definition is_defined {A} (o : option A) : bool :=
  match o with
  | Some _ => true
  | None => false
  end.

(** A checked buffer access: raises where Node's assertion fails. *)
Definition checked {A} (o : option A) : M A :=
  match o with
  | Some a => ret a
  | None => throw AssertionError
  end.

Declare Scope js_scope.
Delimit Scope js_scope with js.
Notation "'let!' x ':=' m 'in' k" := (bind m (fun x => k))
  (at level 10, x name, m at level 100, k at level 200) : js_scope.
Notation "m ';;;' k" := (bind m (fun _ => k))
  (at level 100, k at level 200, right associativity) : js_scope.
Local Open Scope js_scope.

Definition result {A} (r : outcome A * Connection * list event) : outcome A :=
  r.1.1.
Definition final {A} (r : outcome A * Connection * list event) : Connection :=
  r.1.2.
Definition effects {A} (r : outcome A * Connection * list event) : list event :=
  r.2.

(** ** The methods of Connection.prototype *)

Section Methods.

Variable Errors : ErrorsTable.

(** [socket.socket.bufferSize !== 0 || !socket.writable] *)
Definition backpressured (s : Socket) : bool :=
  negb (bufferSize s =? 0) || negb (writable s).

Definition bufferNotification (notification : Notification) : M unit :=
  update (fun c =>
    with_notificationBuffer (notificationBuffer c ++ [notification]) c).

Definition cacheNotification (notification : Notification) : M unit :=
  update (fun c =>
    with_cachedNotifications (cachedNotifications c ++ [notification]) c) ;;;
  let! c := this in
  when_ (Z.of_nat (length (cachedNotifications c)) >? cacheLength (options c))
    (update (fun c => with_cachedNotifications (tail (cachedNotifications c)) c)).

Definition raiseError (errorCode : Z) (notification : option Notification)
  : M unit :=
  let! c := this in
  when_ (errorCallback (options c)) (emit (EvErrorCallback errorCode notification)).

Definition destroyConnection : M unit :=
  let! c := this in
  match socket c with
  | Some _ => emit EvDestroySoon
  | None => ret tt
  end.

(** [notification['_uid'] == identifier] *)
Definition uid_is (identifier : Z) (notification : Notification) : bool :=
  match _uid notification with
  | Some uid => uid =? identifier
  | None => false
  end.

(** The first loop of [handleTransmissionError]: entries are shifted off
    the cache until one carries the identifier.  The result is
    [foundNotification], the last value of [notification], what is left of
    [cachedNotifications] and [temporaryCache]. *)
Fixpoint scan (identifier : Z) (cached temporaryCache : list Notification)
    (notification : option Notification)
  : bool * option Notification * list Notification * list Notification :=
  match cached with
  | [] => (false, notification, [], temporaryCache)
  | n :: cached' =>
      if uid_is identifier n then (true, Some n, cached', temporaryCache)
      else scan identifier cached' (temporaryCache ++ [n]) (Some n)
  end.

(** The last loop of [handleTransmissionError]: [count] times, shift an
    entry off the cache and buffer it.  [count] is the length of the cache,
    so the cache does not run out before the loop ends. *)
Fixpoint requeue (count : nat) : M unit :=
  match count with
  | O => ret tt
  | S count' =>
      let! c := this in
      match cachedNotifications c with
      | notification :: cached' =>
          update (with_cachedNotifications cached') ;;;
          bufferNotification notification ;;;
          requeue count'
      | [] => requeue count'
      end
  end.

(** The listener of the socket's 'data' event.  [data.readUInt32BE(2)]
    asserts that the buffer has six bytes, which makes [data[1]] defined.
    When the notification is found, [temporaryCache] is emptied and
    forgotten. *)
Definition handleTransmissionError (data : Buffer.t) : M unit :=
  match data !! 0%nat with
  | Some command =>
      if command =? 8 then
        let! c := this in
        if negb (enhanced (options c)) then ret tt
        else
          let errorCode := data !! 1%nat in
          let! identifier := checked (Buffer.readUInt32BE 2 data) in
          let! errorCode := checked errorCode in
          match scan identifier (cachedNotifications c) [] None with
          | (foundNotification, notification, cached, temporaryCache) =>
              update (with_cachedNotifications cached) ;;;
              (if foundNotification then
                 raiseError errorCode notification
               else
                 update (with_cachedNotifications temporaryCache) ;;;
                 raiseError (none Errors) None) ;;;
              let! c := this in
              requeue (length (cachedNotifications c)) ;;;
              destroyConnection
          end
      else ret tt
  | None => ret tt
  end.

(** *** The q promise of the connection *)

Inductive value := Undefined | Promise.

(** [promise.isResolved()]: fulfilled or rejected. *)
Definition isResolved (d : Deferred) : bool :=
  match d_state d with
  | Pending => false
  | Fulfilled | Rejected => true
  end.

(** [q.defer()] *)
Definition q_defer : Deferred := {| d_state := Pending; d_thens := [] |}.

(** [deferredConnection.resolve()]: the waiting [then] callbacks are
    scheduled, in the order of their registration.  A promise that is no
    longer pending stays as it is. *)
Definition q_resolve : M unit :=
  let! c := this in
  match deferredConnection c with
  | Some d =>
      match d_state d with
      | Pending =>
          update (with_deferredConnection
                    (Some {| d_state := Fulfilled; d_thens := [] |})) ;;;
          update (fun c => with_q_scheduled (q_scheduled c ++ d_thens d) c)
      | _ => ret tt
      end
  | None => throw TypeError
  end.

(** [deferredConnection.reject(error)]: the [then] callbacks are dropped
    and the [fail] callbacks run.  The one [sendNotification] registers is
    not bound to the connection: its [this.raiseError] is not a function,
    the exception ends in the promise it returns, and nothing else
    happens. *)
Definition q_reject : M unit :=
  let! c := this in
  match deferredConnection c with
  | Some d =>
      match d_state d with
      | Pending =>
          update (with_deferredConnection
                    (Some {| d_state := Rejected; d_thens := [] |}))
      | _ => ret tt
      end
  | None => throw TypeError
  end.

(** [promise.then(callback).fail(...)] on the promise [connect] returned,
    for the callback of [sendNotification notification]. *)
Definition q_then (notification : Notification) : M unit :=
  let! c := this in
  match deferredConnection c with
  | Some d =>
      match d_state d with
      | Pending =>
          update (with_deferredConnection
                    (Some {| d_state := Pending;
                             d_thens := d_thens d ++ [notification] |}))
      | Fulfilled =>
          update (fun c => with_q_scheduled (q_scheduled c ++ [notification]) c)
      | Rejected => ret tt
      end
  | None => throw TypeError
  end.

(** [connect]: one attempt at a time; [initialize().then(...)] opens the
    TLS stream later, see [initialized]. *)
Definition connect : M value :=
  let! c := this in
  match deferredConnection c with
  | Some _ => ret Promise
  | None =>
      update (with_deferredConnection (Some q_defer)) ;;;
      emit EvInitialize ;;;
      ret Promise
  end.

(** The callback [connect] passes to [initialize().then]: the stream [s]
    is opened and the listeners are attached to it. *)
Definition initialized (s : Socket) : M unit :=
  emit EvTlsConnect ;;;
  update (with_socket (Some s)).

(** [sendNotification]: the work is left to the [then] callback, and the
    function has no [return]. *)
Definition sendNotification (notification : Notification) : M value :=
  let! promise := connect in
  q_then notification ;;;
  ret Undefined.

(** The [then] callback of [sendNotification], run by q once the
    connection promise is fulfilled.  [junk] is the memory [new Buffer]
    hands out. *)
Definition sendNotification_then (junk : list Z) (notification : Notification)
  : M unit :=
  let! c := this in
  match socket c with
  | None => throw TypeError
  | Some s =>
      if backpressured s then bufferNotification notification
      else
        match device notification with
        | None => throw TypeError
        | Some d =>
            let token := token d in
            let messageLength := length (message notification) in
            let position := 0%nat in
            match token with
            | None => raiseError (missingDeviceToken Errors) (Some notification)
            | Some token =>
                if Z.of_nat messageLength >? 255 then
                  raiseError (invalidPayloadSize Errors) (Some notification)
                else
                  let uid := currentId c in
                  emit (EvSetUid notification uid) ;;;
                  let notification := set_uid uid notification in
                  update (with_currentId (uid + 1)) ;;;
                  let! c := this in
                  when_ (currentId c >? 0xffffffff) (update (with_currentId 0)) ;;;
                  let! c := this in
                  let! header :=
                    (if enhanced (options c) then
                       let data := Buffer.alloc junk
                         (1 + 4 + 4 + 2 + length token + 2 + messageLength) in
                       let data := Buffer.set position 1 data in
                       let position := (position + 1)%nat in
                       let! data := checked (Buffer.writeUInt32BE uid position data) in
                       let position := (position + 4)%nat in
                       let! data :=
                         checked (Buffer.writeUInt32BE (expiry notification) position data) in
                       let position := (position + 4)%nat in
                       cacheNotification notification ;;;
                       ret (data, position)
                     else
                       let data := Buffer.alloc junk
                         (1 + 2 + length token + 2 + messageLength) in
                       let data := Buffer.set position 0 data in
                       let position := (position + 1)%nat in
                       ret (data, position)) in
                  let data := header.1 in
                  let position := header.2 in
                  let! data :=
                    checked (Buffer.writeUInt16BE (Z.of_nat (length token)) position data) in
                  let position := (position + 2)%nat in
                  let copied := Buffer.copy token position data in
                  let data := copied.1 in
                  let position := (position + copied.2)%nat in
                  let! data :=
                    checked (Buffer.writeUInt16BE (Z.of_nat messageLength) position data) in
                  let position := (position + 2)%nat in
                  let written := Buffer.copy (message notification) position data in
                  let data := written.1 in
                  emit (EvWrite data)
            end
        end
  end.

(** The listener of 'drain', also called once the stream is connected. *)
Definition socketDrained : M unit :=
  let! c := this in
  if match socket c with Some s => backpressured s | None => false end
  then ret tt
  else
    match notificationBuffer c with
    | notification :: buffer' =>
        update (with_notificationBuffer buffer') ;;;
        let! _ := sendNotification notification in
        ret tt
    | [] => ret tt
    end.

(** The callback of [tls.connect]. *)
Definition tlsConnected : M unit :=
  let! c := this in
  match socket c with
  | None => throw TypeError
  | Some s =>
      if negb (authorized s) then q_reject
      else
        when_ (connectionTimeout c) (emit EvClearTimeout) ;;;
        when_ (opt_connectionTimeout (options c) >? 0)
          (emit EvSetTimeout ;;; update (with_connectionTimeout true)) ;;;
        socketDrained ;;;
        q_resolve
  end.

(** The listener of 'end' and 'close'. *)
Definition restartConnection : M unit :=
  let! c := this in
  when_ (is_defined (socket c)) (emit EvRemoveAllListeners) ;;;
  match deferredConnection c with
  | None => throw TypeError
  | Some d =>
      when_ (negb (isResolved d)) q_reject ;;;
      update (with_socket None) ;;;
      update (with_deferredConnection None) ;;;
      when_ (connectionTimeout c) (emit EvClearTimeout) ;;;
      let! c := this in
      match notificationBuffer c with
      | [] => ret tt
      | _ :: _ => let! _ := connect in ret tt
      end
  end.

(** *** The life of a connection

    What can happen to a connection: the application calls
    [sendNotification], q runs a scheduled callback, the credentials are
    loaded (or not), the TLS stream connects, emits an event or changes
    its status, the idle timer fires. *)
Inductive op :=
| CallSendNotification (notification : Notification)
| QThen (junk : list Z)
| InitializeDone (s : Socket)
| InitializeFailed
| TlsConnected
| SocketData (data : Buffer.t)
| SocketDrain
| SocketError
| SocketEnd
| SocketClose
| IdleTimeout
| SocketStatus (size : Z) (w : bool).

Definition skip : M unit := ret tt.

(** The socket's listeners exist while [this.socket] does: they are
    attached when it is opened and [restartConnection] removes them. *)
Definition listening (m : M unit) : M unit :=
  let! c := this in
  if is_defined (socket c) then m else skip.

Definition exec (o : op) : M unit :=
  match o with
  | CallSendNotification notification =>
      let! _ := sendNotification notification in ret tt
  | QThen junk =>
      let! c := this in
      match q_scheduled c with
      | notification :: scheduled' =>
          update (with_q_scheduled scheduled') ;;;
          sendNotification_then junk notification
      | [] => skip
      end
  | InitializeDone s =>
      let! c := this in
      match deferredConnection c, socket c with
      | Some d, None => if isResolved d then skip else initialized s
      | _, _ => skip
      end
  | InitializeFailed =>
      let! c := this in
      match deferredConnection c, socket c with
      | Some d, None => q_reject
      | _, _ => skip
      end
  | TlsConnected => listening tlsConnected
  | SocketData data => listening (handleTransmissionError data)
  | SocketDrain => listening socketDrained
  | SocketError => listening destroyConnection
  | SocketEnd | SocketClose => listening restartConnection
  | IdleTimeout => destroyConnection
  | SocketStatus size w =>
      let! c := this in
      match socket c with
      | Some s =>
          update (with_socket
            (Some {| bufferSize := size; writable := w; authorized := authorized s |}))
      | None => skip
      end
  end.

(** A run: the connection and the effects after a sequence of steps.  An
    exception ends the step that raised it and leaves what the step had
    done. *)
Fixpoint run (ops : list op) (c : Connection) : Connection * list event :=
  match ops with
  | [] => (c, [])
  | o :: ops' =>
      let r := exec o c in
      let r' := run ops' (final r) in
      (r'.1, effects r ++ r'.2)
  end.

End Methods.

(** ** Observations on the effects *)

(** The invocations of the error callback among the effects. *)
Fixpoint callbacks (es : list event) : list (Z * option Notification) :=
  match es with
  | [] => []
  | EvErrorCallback errorCode notification :: es' =>
      (errorCode, notification) :: callbacks es'
  | _ :: es' => callbacks es'
  end.

(** The buffers written to the socket. *)
Fixpoint writes (es : list event) : list (list Z) :=
  match es with
  | [] => []
  | EvWrite data :: es' => data :: writes es'
  | _ :: es' => writes es'
  end.

(** The identifiers given to notifications, in order. *)
Fixpoint assigned_uids (es : list event) : list Z :=
  match es with
  | [] => []
  | EvSetUid _ uid :: es' => uid :: assigned_uids es'
  | _ :: es' => assigned_uids es'
  end.

(** The attempts to connect that were started. *)
Fixpoint attempts (es : list event) : nat :=
  match es with
  | [] => 0%nat
  | EvInitialize :: es' => S (attempts es')
  | _ :: es' => attempts es'
  end.

(** The frames as the protocol describes them: the big-endian digits of a
    number in base 256, and the fields one after the other. *)
Fixpoint big_endian (width : nat) (v : Z) : list Z :=
  match width with
  | O => []
  | S width' => big_endian width' (v / 256) ++ [v mod 256]
  end.

Definition enhanced_frame (identifier expiry : Z) (token payload : list Z)
  : list Z :=
  [1] ++ big_endian 4 identifier ++ big_endian 4 expiry
      ++ big_endian 2 (Z.of_nat (length token)) ++ token
      ++ big_endian 2 (Z.of_nat (length payload)) ++ payload.

Definition simple_frame (token payload : list Z) : list Z :=
  [0] ++ big_endian 2 (Z.of_nat (length token)) ++ token
      ++ big_endian 2 (Z.of_nat (length payload)) ++ payload.

(** The facts that hold of every connection a run can reach. *)
Record consistent (c : Connection) : Prop := mkConsistent {
  cache_bound :
    0 <= cacheLength (options c) ->
    Z.of_nat (length (cachedNotifications c)) <= cacheLength (options c);
  simple_no_cache :
    enhanced (options c) = false -> cachedNotifications c = [];
  currentId_range : 0 <= currentId c <= 0xffffffff;
  socket_has_deferred :
    is_defined (socket c) = true -> is_defined (deferredConnection c) = true
}.

(** Sample data: a table of error codes, a device token of 32 bytes,
    payloads of a given length, the cache of four notifications with the
    identifiers 5 to 8. *)
Definition apn_errors : ErrorsTable :=
  {| none := 255; missingDeviceToken := 2; invalidPayloadSize := 7 |}.

Definition sample_options : Options :=
  {| enhanced := true; errorCallback := true; cacheLength := 100;
     opt_connectionTimeout := 0 |}.

Definition simple_options : Options :=
  {| enhanced := false; errorCallback := true; cacheLength := 100;
     opt_connectionTimeout := 0 |}.

Definition open_socket : Socket :=
  {| bufferSize := 0; writable := true; authorized := true |}.

Definition full_socket : Socket :=
  {| bufferSize := 4096; writable := true; authorized := true |}.

Definition sample_token : list Z := replicate 32 0xab.

Definition sample (payloadLength : nat) : Notification :=
  {| device := Some {| token := Some sample_token |};
     message := replicate payloadLength 0x7b; expiry := 0; _uid := None |}.

Definition tokenless : Notification :=
  {| device := Some {| token := None |}; message := replicate 20 0x7b;
     expiry := 0; _uid := None |}.


Definition sent (uid : Z) : Notification := set_uid uid (sample 20).

Definition connected (o : Options) (s : Socket) : Connection :=
  with_deferredConnection (Some {| d_state := Fulfilled; d_thens := [] |})
    (with_socket (Some s) (new_Connection o)).

Definition sample_cache : Connection :=
  with_cachedNotifications [sent 5; sent 6; sent 7; sent 8]
    (connected sample_options open_socket).

(** ** Notions the statements use *)

(** The identifier that follows [uid]. *)
Definition next_id (uid : Z) : Z :=
  if uid + 1 >? 0xffffffff then 0 else uid + 1.

(** The frame of a notification, in the variant of the connection. *)
Definition frame_of (c : Connection) (uid : Z) (n : Notification)
    (token : list Z) : list Z :=
  if enhanced (options c) then
    enhanced_frame uid (expiry n) token (message n)
  else simple_frame token (message n).

(** The connection after a notification has been given [uid] and sent. *)
Definition after_send (c : Connection) (n : Notification) : Connection :=
  let c1 := with_currentId (next_id (currentId c)) c in
  if enhanced (options c) then
    final (cacheNotification (set_uid (currentId c) n) c1)
  else c1.

(** A buffer whose first bytes are [pre] and whose other bytes are still
    those of the allocation [a]. *)
Definition filled (pre a : list Z) : list Z := pre ++ drop (length pre) a.

(** A step leaves the options alone, and either leaves the identifiers
    alone or gives out [currentId] and moves to the next one. *)
Definition id_step (c : Connection)
    (r : outcome unit * Connection * list event) : Prop :=
  options (final r) = options c /\
  ((assigned_uids (effects r) = [] /\ currentId (final r) = currentId c) \/
   (assigned_uids (effects r) = [currentId c] /\
    currentId (final r) = next_id (currentId c))).

(** What is expected of the handler when no cached entry carries the
    identifier of the frame: every cached entry goes to the end of the
    buffer, in order, the cache is left empty, and the callback is invoked
    once, with the code [none] and [null]. *)
Definition replays_whole_cache (Errors : ErrorsTable) (c : Connection)
    (data : Buffer.t) : Prop :=
  let r := handleTransmissionError Errors data c in
  result r = Normal tt /\
  callbacks (effects r) = [(none Errors, None)] /\
  cachedNotifications (final r) = [] /\
  notificationBuffer (final r) = notificationBuffer c ++ cachedNotifications c.



(** A notification that can be written: it has a token of at most 65535
    bytes, a payload of at most 255 bytes and an expiry of 32 bits. *)
Definition sendable (n : Notification) : Prop :=
  exists token,
    device_token n = Some token /\
    Z.of_nat (length token) <= 0xffff /\
    Z.of_nat (length (message n)) <= 255 /\
    0 <= expiry n <= 0xffffffff.

(** The frames of notifications that are sent one after the other, the
    first of them with the identifier [uid]. *)
Fixpoint sent_frames (c : Connection) (uid : Z) (ns : list Notification)
  : list (list Z) :=
  match ns with
  | [] => []
  | n :: ns' =>
      frame_of c uid n (default [] (device_token n))
        :: sent_frames c (next_id uid) ns'
  end.

(** A connection whose attempt to connect has failed for good: the promise
    of the connection is rejected and there is no socket. *)
Definition failed_for_good (c : Connection) : Prop :=
  deferredConnection c = Some {| d_state := Rejected; d_thens := [] |} /\
  socket c = None.

(** The idle timers that were armed. *)
Fixpoint timers_armed (es : list event) : nat :=
  match es with
  | [] => 0%nat
  | EvSetTimeout :: es' => S (timers_armed es')
  | _ :: es' => timers_armed es'
  end.

(** ** More sample data *)

(** Options with a cache of two entries. *)
Definition small_options : Options :=
  {| enhanced := true; errorCallback := true; cacheLength := 2;
     opt_connectionTimeout := 0 |}.

(** A connection of the simple variant after it has sent one notification. *)
Definition simple_session : Connection :=
  (run apn_errors
     [CallSendNotification (sample 20); InitializeDone open_socket;
      TlsConnected; QThen []]
     (new_Connection simple_options)).1.

(** A connection of the enhanced variant that has sent one notification
    and whose socket has not yet flushed it. *)
Definition busy_session : Connection :=
  (run apn_errors
     [CallSendNotification (sample 20); InitializeDone open_socket;
      TlsConnected; QThen []; SocketStatus 4096 true]
     (new_Connection sample_options)).1.

(** A connection whose cache is full. *)
Definition full_cache : Connection :=
  with_cachedNotifications [sent 5; sent 6] (connected small_options open_socket).

(** A connection about to give out the last identifier. *)
Definition last_id : Connection :=
  with_currentId 0xffffffff (connected sample_options open_socket).

(** A run that connects and sends three notifications. *)
Definition three_sends : list op :=
  [CallSendNotification (sample 20); InitializeDone open_socket; TlsConnected;
   QThen []; CallSendNotification (sample 21); QThen [];
   CallSendNotification (sample 22); QThen []].

(** A connected connection with one notification in its buffer. *)
Definition waiting (n : Notification) : Connection :=
  with_notificationBuffer [n] (connected sample_options open_socket).

(** A notification whose expiry does not fit in 32 bits, and one whose
    token does not fit the 16 bits of its length. *)
Definition far_expiry : Notification :=
  {| device := Some {| token := Some sample_token |};
     message := replicate 20 0x7b; expiry := 0x100000000; _uid := None |}.



(** A stream whose peer is not authorized. *)
Definition untrusted_socket : Socket :=
  {| bufferSize := 0; writable := true; authorized := false |}.

(** A connection that waits for its credentials, with one notification
    submitted. *)
Definition connecting : Connection :=
  final (exec apn_errors (CallSendNotification (sample 20))
           (new_Connection sample_options)).

(** A run that connects and sends one notification. *)
Definition one_send : list op :=
  [CallSendNotification (sample 20); InitializeDone open_socket; TlsConnected;
   QThen []].

(** A connected connection with two notifications in its buffer. *)
Definition backlog : Connection :=
  with_notificationBuffer [sample 20; sample 21]
    (connected sample_options open_socket).

(** ** Loading the credentials

    [initialize] and [checkInitialized], on the fields they use:
    [options.certData], [options.keyData], [certData], [keyData] and
    [deferredInitialize]. *)
Module Credentials.

(** Certificate or key material: a string (an option given as a string,
    the text of a file) or a Buffer. *)
Inductive material := Text (s : list Z) | Bytes (b : list Z).

(** The truth value of a field that holds material, [null] or
    [undefined]: the empty string is false, a Buffer is true. *)
Definition truthy (m : option material) : bool :=
  match m with
  | Some (Text []) => false
  | Some _ => true
  | None => false
  end.

Record t := mk {
  options_certData : option material;
  options_keyData : option material;
  certData : option material;
  keyData : option material;
  deferredInitialize : option PromiseState
}.

(** The fields as the constructor leaves them. *)
Definition fresh (cert key : option material) : t :=
  {| options_certData := cert; options_keyData := key; certData := None;
     keyData := None; deferredInitialize := None |}.

Definition with_certData (v : option material) (k : t) : t :=
  {| options_certData := options_certData k;
     options_keyData := options_keyData k; certData := v;
     keyData := keyData k; deferredInitialize := deferredInitialize k |}.

Definition with_keyData (v : option material) (k : t) : t :=
  {| options_certData := options_certData k;
     options_keyData := options_keyData k; certData := certData k;
     keyData := v; deferredInitialize := deferredInitialize k |}.

Definition with_deferredInitialize (v : option PromiseState) (k : t) : t :=
  {| options_certData := options_certData k;
     options_keyData := options_keyData k; certData := certData k;
     keyData := keyData k; deferredInitialize := v |}.

(** The files [initialize] asks [fs.readFile] for: [options.cert] and
    [options.key]. *)
Inductive file := Cert | Key.

Definition file_eqb (f g : file) : bool :=
  match f, g with
  | Cert, Cert | Key, Key => true
  | _, _ => false
  end.

(** [deferredInitialize.resolve()] and [deferredInitialize.reject(err)]: a
    promise that is no longer pending stays as it is. *)
Definition settle (s : PromiseState) (k : t) : outcome unit * t :=
  match deferredInitialize k with
  | None => (Throws TypeError, k)
  | Some Pending => (Normal tt, with_deferredInitialize (Some s) k)
  | Some _ => (Normal tt, k)
  end.

Definition checkInitialized (k : t) : outcome unit * t :=
  if truthy (keyData k) && truthy (certData k) then settle Fulfilled k
  else (Normal tt, k).

(** [initialize]: the outcome, the fields, and the files whose read it
    starts. *)
Definition initialize (k : t) : outcome unit * t * list file :=
  match deferredInitialize k with
  | Some _ => (Normal tt, k, [])
  | None =>
      let k := with_deferredInitialize (Some Pending) k in
      let certStep :=
        if truthy (options_certData k)
        then (with_certData (options_certData k) k, [])
        else (k, [Cert]) in
      let k := certStep.1 in
      let keyStep :=
        if truthy (options_keyData k)
        then (with_keyData (options_keyData k) k, [])
        else (k, [Key]) in
      let k := keyStep.1 in
      let checked := checkInitialized k in
      (checked.1, checked.2, certStep.2 ++ keyStep.2)
  end.

(** The callback [initialize] gives to [fs.readFile]: [r] is [None] for an
    error, the bytes of the file otherwise. *)
Definition loaded (f : file) (r : option (list Z)) (k : t) : outcome unit * t :=
  match r with
  | None => settle Rejected k
  | Some data =>
      checkInitialized
        (match f with
         | Cert => with_certData (Some (Text data)) k
         | Key => with_keyData (Some (Text data)) k
         end)
  end.

(** The object together with the reads that have not yet called back. *)
Record world := mkWorld {
  object : t;
  reading : list file
}.

Definition start (k : t) : world := {| object := k; reading := [] |}.

Inductive step :=
| CallInitialize
| FileRead (f : file) (r : option (list Z)).

(** A step and the reads it starts.  The callback of a read runs once, and
    only for a read that was started. *)
Definition exec (s : step) (w : world) : world * list file :=
  match s with
  | CallInitialize =>
      let r := initialize (object w) in
      ({| object := r.1.2; reading := reading w ++ r.2 |}, r.2)
  | FileRead f r =>
      if existsb (file_eqb f) (reading w) then
        ({| object := (loaded f r (object w)).2;
            reading := List.filter (fun g => negb (file_eqb f g)) (reading w) |}, [])
      else (w, [])
  end.

Fixpoint run (steps : list step) (w : world) : world * list file :=
  match steps with
  | [] => (w, [])
  | s :: steps' =>
      let r := exec s w in
      let r' := run steps' r.1 in
      (r'.1, r.2 ++ r'.2)
  end.

End Credentials.

(** What holds of the object and of the outstanding reads in every run. *)
Record loading_ok (w : Credentials.world) : Prop := mkLoadingOk {
  cert_unread :
    existsb (Credentials.file_eqb Credentials.Cert) (Credentials.reading w) = true ->
    Credentials.certData (Credentials.object w) = None;
  key_unread :
    existsb (Credentials.file_eqb Credentials.Key) (Credentials.reading w) = true ->
    Credentials.keyData (Credentials.object w) = None;
  fulfilled_present :
    Credentials.deferredInitialize (Credentials.object w) = Some Fulfilled ->
    Credentials.truthy (Credentials.certData (Credentials.object w)) = true /\
    Credentials.truthy (Credentials.keyData (Credentials.object w)) = true;
  pending_absent :
    Credentials.deferredInitialize (Credentials.object w) = Some Pending ->
    Credentials.truthy (Credentials.certData (Credentials.object w)) &&
    Credentials.truthy (Credentials.keyData (Credentials.object w)) = false;
  idle_empty :
    Credentials.deferredInitialize (Credentials.object w) = None ->
    Credentials.certData (Credentials.object w) = None /\
    Credentials.keyData (Credentials.object w) = None /\
    Credentials.reading w = []
}.

(** ** Reasoning about method bodies *)

Ltac js_unfold :=
  unfold bind, ret, this, update, emit, throw, when_, checked, skip,
         result, final, effects in *.

Ltac js_simpl := js_unfold; simpl in *.

Lemma bind_assoc_run {A B} (m : M A) (k : A -> M B) (c : Connection) :
  bind m k c =
  match m c with
  | (Normal a, c1, es1) => (result (k a c1), final (k a c1), es1 ++ effects (k a c1))
  | (Throws e, c1, es1) => (Throws e, c1, es1)
  end.
Proof.
  unfold bind, result, final, effects.
  destruct (m c) as [[[a|e] c1] es1]; [|reflexivity].
  by destruct (k a c1) as [[r c2] es2].
Qed.

Section Cache.

Variable Errors : ErrorsTable.

Lemma cacheNotification_run (n : Notification) (c : Connection) :
  cacheNotification n c =
  (Normal tt,
   with_cachedNotifications
     (if Z.of_nat (length (cachedNotifications c ++ [n])) >? cacheLength (options c)
      then tail (cachedNotifications c ++ [n])
      else cachedNotifications c ++ [n]) c,
   []).
Proof.
  unfold cacheNotification. js_simpl.
  destruct (Z.of_nat _ >? _); reflexivity.
Qed.

Lemma cacheNotification_bound (n : Notification) (c : Connection) :
  0 <= cacheLength (options c) ->
  Z.of_nat (length (cachedNotifications c)) <= cacheLength (options c) ->
  Z.of_nat (length (cachedNotifications (final (cacheNotification n c))))
    <= cacheLength (options c).
Proof.
  intros H0 Hle. rewrite cacheNotification_run. unfold final. simpl.
  destruct (Z.gtb_spec (Z.of_nat (length (cachedNotifications c ++ [n])))
              (cacheLength (options c))) as [Hgt|Hngt]; [|lia].
  destruct (cachedNotifications c) as [|x l]; simpl in *; [lia|].
  rewrite length_app in *. simpl in *. lia.
Qed.

(** The replay loop moves the first [count] entries of the cache to the
    end of the buffer. *)
Lemma requeue_run (count : nat) (c : Connection) :
  requeue count c =
  (Normal tt,
   with_notificationBuffer (notificationBuffer c ++ take count (cachedNotifications c))
     (with_cachedNotifications (drop count (cachedNotifications c)) c),
   []).
Proof.
  revert c. induction count as [|count IH]; intros c.
  - destruct c. simpl. unfold ret, with_notificationBuffer. simpl.
    by rewrite app_nil_r.
  - destruct c as [o i cached buf s d t q]. simpl.
    destruct cached as [|n cached].
    + rewrite bind_assoc_run. js_simpl. rewrite IH. simpl.
      by rewrite take_nil, drop_nil.
    + rewrite bind_assoc_run. js_simpl.
      unfold bufferNotification. js_simpl. rewrite IH. simpl.
      unfold with_notificationBuffer, with_cachedNotifications. simpl.
      by rewrite <- app_assoc.
Qed.

(** The scan stops at the first entry that carries the identifier. *)
Lemma scan_found (identifier : Z) (older newer temp : list Notification)
    (m : Notification) (last : option Notification) :
  Forall (fun n => uid_is identifier n = false) older ->
  uid_is identifier m = true ->
  scan identifier (older ++ m :: newer) temp last =
  (true, Some m, newer, temp ++ older).
Proof.
  intros Hold Hm. revert temp last.
  induction Hold as [|n older Hn _ IH]; intros temp last; simpl.
  - by rewrite Hm, app_nil_r.
  - rewrite Hn, IH. by rewrite <- app_assoc.
Qed.

Lemma scan_not_found (identifier : Z) (cached temp : list Notification)
    (last : option Notification) :
  Forall (fun n => uid_is identifier n = false) cached ->
  exists last', scan identifier cached temp last = (false, last', [], temp ++ cached).
Proof.
  intros Hall. revert temp last.
  induction Hall as [|n cached Hn _ IH]; intros temp last; simpl.
  - exists last. by rewrite app_nil_r.
  - rewrite Hn. destruct (IH (temp ++ [n]) (Some n)) as [last' ->].
    exists last'. by rewrite <- app_assoc.
Qed.

(** Either some entry carries the identifier, and the cache splits at the
    first one, or none does. *)
Lemma first_match (identifier : Z) (cached : list Notification) :
  (exists older m newer,
      cached = older ++ m :: newer /\
      Forall (fun n => uid_is identifier n = false) older /\
      uid_is identifier m = true) \/
  Forall (fun n => uid_is identifier n = false) cached.
Proof.
  induction cached as [|n cached IH].
  - right. constructor.
  - destruct (uid_is identifier n) eqn:Hn.
    + left. exists [], n, cached. by repeat split.
    + destruct IH as [(older & m & newer & -> & Hold & Hm)|Hall].
      * left. exists (n :: older), m, newer. repeat split; [|done].
        by constructor.
      * right. by constructor.
Qed.

Lemma uid_is_true (identifier : Z) (n : Notification) :
  uid_is identifier n = true <-> _uid n = Some identifier.
Proof.
  unfold uid_is. destruct (_uid n) as [uid|]; [|by split].
  rewrite Z.eqb_eq. split; congruence.
Qed.

Lemma uid_is_false (identifier : Z) (n : Notification) :
  uid_is identifier n = false <-> _uid n <> Some identifier.
Proof.
  rewrite <- uid_is_true. by destruct (uid_is identifier n).
Qed.

(** The handler of an error frame, run to its end. *)
Lemma handleTransmissionError_run (data : Buffer.t) (c : Connection)
    (status identifier : Z) :
  data !! 0%nat = Some 8 ->
  data !! 1%nat = Some status ->
  Buffer.readUInt32BE 2 data = Some identifier ->
  enhanced (options c) = true ->
  handleTransmissionError Errors data c =
  match scan identifier (cachedNotifications c) [] None with
  | (found, notification, cached, temporaryCache) =>
      (Normal tt,
       with_notificationBuffer
         (notificationBuffer c ++ (if found then cached else temporaryCache))
         (with_cachedNotifications [] c),
       (if errorCallback (options c) then
          [if found then EvErrorCallback status notification
           else EvErrorCallback (none Errors) None]
        else []) ++
       (if is_defined (socket c) then [EvDestroySoon] else []))
  end.
Proof.
  intros H0 H1 Hid Henh. unfold handleTransmissionError.
  rewrite H0, H1, Hid. destruct c as [o i cached buf s d t q].
  simpl in *. js_simpl. rewrite Henh. simpl.
  destruct (scan identifier cached [] None) as [[[found n] rest] temp].
  unfold raiseError, destroyConnection. js_simpl.
  destruct found; simpl; destruct (errorCallback o); simpl;
    rewrite requeue_run; simpl; rewrite take_ge, drop_ge by done;
    destruct s; reflexivity.
Qed.

End Cache.

(** ** Replay after an error frame *)

Section Replay.

Variable Errors : ErrorsTable.

(** C1. When the identifier of an error frame is the one of a cached
    notification, the cache splits at the first such entry: the entries
    before it are dropped (they reach neither the buffer nor the
    callback), the callback is invoked once, with the status of the frame
    and that entry, the entries after it are appended to the buffer in
    their order, and the cache is left empty. *)
Theorem matched_error_replays_newer (c : Connection) (data : Buffer.t)
    (status identifier : Z) :
  errorCallback (options c) = true ->
  (enhanced (options c) = false -> cachedNotifications c = []) ->
  data !! 0%nat = Some 8 ->
  data !! 1%nat = Some status ->
  Buffer.readUInt32BE 2 data = Some identifier ->
  (exists n, n ∈ cachedNotifications c /\ _uid n = Some identifier) ->
  exists older m newer,
    cachedNotifications c = older ++ m :: newer /\
    Forall (fun n => _uid n <> Some identifier) older /\
    _uid m = Some identifier /\
    let r := handleTransmissionError Errors data c in
    result r = Normal tt /\
    callbacks (effects r) = [(status, Some m)] /\
    cachedNotifications (final r) = [] /\
    notificationBuffer (final r) = notificationBuffer c ++ newer.
Proof.
  intros Hcb Hsimple H0 H1 Hid (n & Hin & Hn).
  assert (enhanced (options c) = true) as Henh.
  { destruct (enhanced (options c)); [done|].
    rewrite Hsimple in Hin by done. by apply elem_of_nil in Hin. }
  destruct (first_match identifier (cachedNotifications c))
    as [(older & m & newer & Hsplit & Hold & Hm)|Hnone].
  - exists older, m, newer. split; [done|]. split.
    { eapply Forall_impl; [exact Hold|]. intros x. by rewrite uid_is_false. }
    split; [by apply uid_is_true|]. simpl.
    rewrite (handleTransmissionError_run Errors data c status identifier)
      by done.
    rewrite Hsplit, scan_found by done. rewrite Hcb.
    unfold result, final, effects. simpl.
    repeat split. by destruct (socket c).
  - exfalso. rewrite Forall_forall in Hnone.
    specialize (Hnone n Hin). apply uid_is_false in Hnone. done.
Qed.

(** C2, as the code has it.  In the enhanced variant, with an error
    callback, a frame whose identifier no cached entry carries sends the
    whole cache to the end of the buffer, in order, and the callback is
    invoked once, with the code [none] and [null].  In the simple variant
    the frame is ignored. *)
Theorem unmatched_error_replays_all (c : Connection) (data : Buffer.t)
    (status identifier : Z) :
  data !! 0%nat = Some 8 ->
  data !! 1%nat = Some status ->
  Buffer.readUInt32BE 2 data = Some identifier ->
  Forall (fun n => _uid n <> Some identifier) (cachedNotifications c) ->
  (enhanced (options c) = true -> errorCallback (options c) = true ->
   replays_whole_cache Errors c data) /\
  (enhanced (options c) = false ->
   handleTransmissionError Errors data c = (Normal tt, c, [])).
Proof.
  intros H0 H1 Hid Hnone. split.
  - intros Henh Hcb. unfold replays_whole_cache.
    rewrite (handleTransmissionError_run Errors data c status identifier)
      by done.
    destruct (scan_not_found identifier (cachedNotifications c) [] None)
      as [last ->].
    { eapply Forall_impl; [exact Hnone|]. intros x. by rewrite uid_is_false. }
    rewrite Hcb. unfold result, final, effects. simpl.
    repeat split. by destruct (socket c).
  - intros Hsimple. unfold handleTransmissionError.
    rewrite H0. js_simpl. by rewrite Hsimple.
Qed.

End Replay.

(** ** Buffers and frames *)

Section BufferFacts.

Lemma land_255 (v : Z) : Z.land v 0xff = v mod 256.
Proof. change 0xff with (Z.ones 8). by rewrite Z.land_ones. Qed.

Lemma shiftr_8 (v : Z) : Z.shiftr v 8 = v / 256.
Proof. by rewrite Z.shiftr_div_pow2. Qed.

Lemma u32be_big_endian (v : Z) : Buffer.u32be v = big_endian 4 v.
Proof.
  unfold Buffer.u32be. simpl. rewrite !land_255.
  rewrite !Z.shiftr_div_pow2 by lia.
  rewrite !Z.div_div by lia. reflexivity.
Qed.

Lemma u16be_big_endian (v : Z) : Buffer.u16be v = big_endian 2 v.
Proof.
  unfold Buffer.u16be. simpl.
  rewrite Z.shiftr_land. change (Z.shiftr 0xff00 8) with 0xff.
  by rewrite !land_255, shiftr_8.
Qed.

Lemma big_endian_length (width : nat) (v : Z) :
  length (big_endian width v) = width.
Proof.
  revert v. induction width as [|w IH]; intros v; simpl; [done|].
  rewrite length_app, IH. simpl. lia.
Qed.

Lemma alloc_length (junk : list Z) (size : nat) :
  length (Buffer.alloc junk size) = size.
Proof.
  unfold Buffer.alloc. rewrite length_take, length_app, length_replicate. lia.
Qed.

(** Storing [k] right after the prefix [pre] of a buffer. *)
Lemma inserts_fill (pos : nat) (pre k rest : list Z) :
  pos = length pre ->
  (length k <= length rest)%nat ->
  list_inserts pos k (pre ++ rest) = (pre ++ k) ++ drop (length k) rest.
Proof.
  intros -> Hlen.
  rewrite <- (Nat.add_0_r (length pre)), list_inserts_app_r.
  rewrite <- app_assoc. f_equal.
  rewrite <- (take_drop (length k) rest) at 1.
  apply list_inserts_0_r. rewrite length_take. lia.
Qed.

Lemma set_fill (pos : nat) (pre rest : list Z) (x : Z) :
  pos = length pre ->
  (1 <= length rest)%nat ->
  Buffer.set pos x (pre ++ rest) = (pre ++ [x]) ++ drop 1 rest.
Proof.
  intros Hpos Hlen. unfold Buffer.set.
  change (<[pos:=x]> (pre ++ rest)) with (list_inserts pos [x] (pre ++ rest)).
  by rewrite inserts_fill.
Qed.

Lemma writeUInt32BE_inserts (v : Z) (pos : nat) (b : Buffer.t) :
  0 <= v <= 0xffffffff ->
  (pos + 3 < length b)%nat ->
  Buffer.writeUInt32BE v pos b = Some (list_inserts pos (Buffer.u32be v) b).
Proof.
  intros Hv Hpos. unfold Buffer.writeUInt32BE, Buffer.verifuint.
  replace (0 <=? v) with true by (symmetry; apply Z.leb_le; lia).
  replace (v <=? 0xffffffff) with true by (symmetry; apply Z.leb_le; lia).
  replace (pos + 3 <? length b)%nat with true
    by (symmetry; apply Nat.ltb_lt; lia).
  simpl. f_equal. unfold Buffer.set, Buffer.u32be. simpl.
  replace (S pos) with (pos + 1)%nat by lia.
  replace (S (pos + 1)) with (pos + 2)%nat by lia.
  replace (S (pos + 2)) with (pos + 3)%nat by lia.
  rewrite (list_insert_insert_ne _ (pos + 3) (pos + 2)) by lia.
  rewrite (list_insert_insert_ne _ (pos + 3) (pos + 1)) by lia.
  rewrite (list_insert_insert_ne _ (pos + 3) pos) by lia.
  rewrite (list_insert_insert_ne _ (pos + 2) (pos + 1)) by lia.
  rewrite (list_insert_insert_ne _ (pos + 2) pos) by lia.
  rewrite (list_insert_insert_ne _ (pos + 1) pos) by lia.
  reflexivity.
Qed.

Lemma writeUInt16BE_inserts (v : Z) (pos : nat) (b : Buffer.t) :
  0 <= v <= 0xffff ->
  (pos + 1 < length b)%nat ->
  Buffer.writeUInt16BE v pos b = Some (list_inserts pos (Buffer.u16be v) b).
Proof.
  intros Hv Hpos. unfold Buffer.writeUInt16BE, Buffer.verifuint.
  replace (0 <=? v) with true by (symmetry; apply Z.leb_le; lia).
  replace (v <=? 0xffff) with true by (symmetry; apply Z.leb_le; lia).
  replace (pos + 1 <? length b)%nat with true
    by (symmetry; apply Nat.ltb_lt; lia).
  simpl. f_equal. unfold Buffer.set, Buffer.u16be. simpl.
  replace (S pos) with (pos + 1)%nat by lia.
  rewrite (list_insert_insert_ne _ (pos + 1) pos) by lia.
  reflexivity.
Qed.

Lemma writeUInt32BE_fill (v : Z) (pos : nat) (pre rest : list Z) :
  pos = length pre ->
  0 <= v <= 0xffffffff ->
  (4 <= length rest)%nat ->
  Buffer.writeUInt32BE v pos (pre ++ rest) =
  Some ((pre ++ big_endian 4 v) ++ drop 4 rest).
Proof.
  intros Hpos Hv Hlen.
  rewrite writeUInt32BE_inserts by (rewrite ?length_app; lia).
  rewrite u32be_big_endian, inserts_fill by (rewrite ?big_endian_length; lia).
  by rewrite big_endian_length.
Qed.

Lemma writeUInt16BE_fill (v : Z) (pos : nat) (pre rest : list Z) :
  pos = length pre ->
  0 <= v <= 0xffff ->
  (2 <= length rest)%nat ->
  Buffer.writeUInt16BE v pos (pre ++ rest) =
  Some ((pre ++ big_endian 2 v) ++ drop 2 rest).
Proof.
  intros Hpos Hv Hlen.
  rewrite writeUInt16BE_inserts by (rewrite ?length_app; lia).
  rewrite u16be_big_endian, inserts_fill by (rewrite ?big_endian_length; lia).
  by rewrite big_endian_length.
Qed.

Lemma copy_fill (source : list Z) (pos : nat) (pre rest : list Z) :
  pos = length pre ->
  (length source <= length rest)%nat ->
  Buffer.copy source pos (pre ++ rest) =
  ((pre ++ source) ++ drop (length source) rest, length source).
Proof.
  intros Hpos Hlen. unfold Buffer.copy.
  rewrite inserts_fill by done. f_equal.
  rewrite length_app. lia.
Qed.

Lemma lor_low_bits (a b n : Z) :
  0 <= n -> 0 <= b < 2 ^ n -> Z.lor (a * 2 ^ n) b = a * 2 ^ n + b.
Proof.
  intros Hn Hb. rewrite <- Z.shiftl_mul_pow2 by done.
  apply eq_sym, Z.add_nocarry_lor.
  apply Z.bits_inj'. intros k Hk.
  rewrite Z.land_spec, Z.bits_0.
  destruct (Z.lt_ge_cases k n) as [Hlt|Hge].
  - by rewrite Z.shiftl_spec_low.
  - rewrite <- (Z.mod_small b (2 ^ n)) by done.
    rewrite Z.mod_pow2_bits_high by lia. apply andb_false_r.
Qed.

(** A number of 32 bits is read back from its big-endian bytes. *)
Lemma readUInt32BE_big_endian (pre rest : list Z) (v : Z) :
  0 <= v <= 0xffffffff ->
  Buffer.readUInt32BE (length pre) (pre ++ big_endian 4 v ++ rest) = Some v.
Proof.
  intros Hv. unfold Buffer.readUInt32BE.
  rewrite (lookup_app_r pre _ (length pre)) by lia.
  rewrite (lookup_app_r pre _ (length pre + 1)) by lia.
  rewrite (lookup_app_r pre _ (length pre + 2)) by lia.
  rewrite (lookup_app_r pre _ (length pre + 3)) by lia.
  replace (length pre - length pre)%nat with 0%nat by lia.
  replace (length pre + 1 - length pre)%nat with 1%nat by lia.
  replace (length pre + 2 - length pre)%nat with 2%nat by lia.
  replace (length pre + 3 - length pre)%nat with 3%nat by lia.
  simpl. f_equal.
  assert (forall x, 0 <= x mod 256 < 256) as Hbyte
    by (intros x; apply Z.mod_pos_bound; lia).
  pose proof (Hbyte v). pose proof (Hbyte (v / 256)).
  pose proof (Hbyte (v / 256 / 256)).
  rewrite !Z.shiftl_mul_pow2 by lia.
  rewrite (lor_low_bits _ ((v / 256) mod 256 * 2 ^ 8) 16) by lia.
  replace ((v / 256 / 256) mod 256 * 2 ^ 16 + (v / 256) mod 256 * 2 ^ 8)
    with (((v / 256 / 256) mod 256 * 2 ^ 8 + (v / 256) mod 256) * 2 ^ 8)
    by lia.
  rewrite (lor_low_bits _ (v mod 256) 8) by lia.
  assert (0 <= v / 256 / 256 / 256 < 256).
  { rewrite !Z.div_div by lia. simpl. split.
    - apply Z.div_pos; lia.
    - apply Z.div_lt_upper_bound; lia. }
  rewrite (Z.mod_small (v / 256 / 256 / 256)) by lia.
  pose proof (Z.div_mod v 256). pose proof (Z.div_mod (v / 256) 256).
  pose proof (Z.div_mod (v / 256 / 256) 256).
  lia.
Qed.

End BufferFacts.

(** ** The callback of sendNotification *)

Section Send.

Variable Errors : ErrorsTable.

Lemma device_token_Some (n : Notification) (t : list Z) :
  device_token n = Some t -> device n = Some {| token := Some t |}.
Proof.
  unfold device_token. destruct (device n) as [[tk]|]; simpl; congruence.
Qed.

Lemma filled_nil (a : list Z) : filled [] a = a.
Proof. reflexivity. Qed.

Lemma filled_all (pre a : list Z) : length pre = length a -> filled pre a = pre.
Proof.
  intros H. unfold filled. rewrite drop_ge by lia. apply app_nil_r.
Qed.

Lemma filled_step (pre k a : list Z) :
  (pre ++ k) ++ drop (length k) (drop (length pre) a) = filled (pre ++ k) a.
Proof. unfold filled. by rewrite drop_drop, length_app. Qed.

Lemma set_filled (pos : nat) (pre a : list Z) (x : Z) :
  pos = length pre ->
  (length pre + 1 <= length a)%nat ->
  Buffer.set pos x (filled pre a) = filled (pre ++ [x]) a.
Proof.
  intros Hpos Hlen. unfold filled at 1.
  rewrite set_fill by (rewrite ?length_drop; lia).
  apply (filled_step pre [x]).
Qed.

Lemma writeUInt32BE_filled (v : Z) (pos : nat) (pre a : list Z) :
  pos = length pre ->
  0 <= v <= 0xffffffff ->
  (length pre + 4 <= length a)%nat ->
  Buffer.writeUInt32BE v pos (filled pre a) =
  Some (filled (pre ++ big_endian 4 v) a).
Proof.
  intros Hpos Hv Hlen. unfold filled at 1.
  rewrite writeUInt32BE_fill by (rewrite ?length_drop; lia).
  f_equal. rewrite <- (big_endian_length 4 v) at 2. apply filled_step.
Qed.

Lemma writeUInt16BE_filled (v : Z) (pos : nat) (pre a : list Z) :
  pos = length pre ->
  0 <= v <= 0xffff ->
  (length pre + 2 <= length a)%nat ->
  Buffer.writeUInt16BE v pos (filled pre a) =
  Some (filled (pre ++ big_endian 2 v) a).
Proof.
  intros Hpos Hv Hlen. unfold filled at 1.
  rewrite writeUInt16BE_fill by (rewrite ?length_drop; lia).
  f_equal. rewrite <- (big_endian_length 2 v) at 2. apply filled_step.
Qed.

Lemma copy_filled (source : list Z) (pos : nat) (pre a : list Z) :
  pos = length pre ->
  (length pre + length source <= length a)%nat ->
  Buffer.copy source pos (filled pre a) =
  (filled (pre ++ source) a, length source).
Proof.
  intros Hpos Hlen. unfold filled at 1.
  rewrite copy_fill by (rewrite ?length_drop; lia).
  f_equal. apply filled_step.
Qed.

Local Opaque Buffer.writeUInt32BE Buffer.writeUInt16BE Buffer.copy
  Buffer.set Buffer.alloc big_endian filled cacheNotification.

Ltac cursor :=
  simpl;
  repeat (first [rewrite length_app | rewrite big_endian_length
                | rewrite alloc_length]; simpl);
  lia.

Ltac start_filling :=
  match goal with
  | |- context [Buffer.alloc ?j ?size] =>
      change (Buffer.alloc j size) with (filled [] (Buffer.alloc j size))
  end.

Ltac finish_filling :=
  (rewrite writeUInt16BE_filled by cursor); simpl;
  (rewrite copy_filled by cursor); simpl;
  (rewrite writeUInt16BE_filled by cursor); simpl;
  (rewrite copy_filled by cursor); simpl;
  (rewrite filled_all by cursor);
  unfold enhanced_frame, simple_frame; simpl;
  by rewrite <- !app_assoc.

Lemma sendNotification_then_sends (c : Connection) (s : Socket)
    (junk : list Z) (n : Notification) (token : list Z) :
  socket c = Some s ->
  backpressured s = false ->
  device_token n = Some token ->
  Z.of_nat (length (message n)) <= 255 ->
  Z.of_nat (length token) <= 0xffff ->
  0 <= expiry n <= 0xffffffff ->
  0 <= currentId c <= 0xffffffff ->
  sendNotification_then Errors junk n c =
  (Normal tt, after_send c n,
   [EvSetUid n (currentId c); EvWrite (frame_of c (currentId c) n token)]).
Proof.
  intros Hs Hbp Htok Hmsg Htoklen Hexp Hid.
  unfold sendNotification_then, after_send, frame_of, next_id.
  destruct c as [o uid cached buf so d t q]. simpl in *. subst so.
  js_simpl. rewrite Hbp, (device_token_Some n token Htok). simpl.
  destruct (Z.gtb_spec (Z.of_nat (length (message n))) 255) as [?|_]; [lia|].
  simpl.
  destruct (uid + 1 >? 4294967295) eqn:Hwrap; simpl;
    destruct (enhanced o) eqn:Henh; simpl;
    start_filling; (rewrite set_filled by cursor); simpl.
  - (rewrite writeUInt32BE_filled by cursor); simpl.
    (rewrite writeUInt32BE_filled by cursor); simpl.
    rewrite !cacheNotification_run; simpl. finish_filling.
  - finish_filling.
  - (rewrite writeUInt32BE_filled by cursor); simpl.
    (rewrite writeUInt32BE_filled by cursor); simpl.
    rewrite !cacheNotification_run; simpl. finish_filling.
  - finish_filling.
Qed.

Lemma sendNotification_then_buffers (c : Connection) (s : Socket)
    (junk : list Z) (n : Notification) :
  socket c = Some s ->
  backpressured s = true ->
  sendNotification_then Errors junk n c =
  (Normal tt, with_notificationBuffer (notificationBuffer c ++ [n]) c, []).
Proof.
  intros Hs Hbp. unfold sendNotification_then, bufferNotification.
  js_simpl. by rewrite Hs, Hbp.
Qed.

Lemma sendNotification_then_no_token (c : Connection) (s : Socket)
    (junk : list Z) (n : Notification) :
  socket c = Some s ->
  backpressured s = false ->
  device n = Some {| token := None |} ->
  sendNotification_then Errors junk n c =
  (Normal tt, c,
   if errorCallback (options c)
   then [EvErrorCallback (missingDeviceToken Errors) (Some n)] else []).
Proof.
  intros Hs Hbp Hdev. unfold sendNotification_then, raiseError.
  js_simpl. rewrite Hs, Hbp, Hdev. simpl.
  by destruct (errorCallback (options c)).
Qed.

(** A notification without [device]: reading [notification.device.token]
    raises a TypeError, the first thing the callback does once the socket
    takes the write. *)
Lemma sendNotification_then_no_device (c : Connection) (s : Socket)
    (junk : list Z) (n : Notification) :
  socket c = Some s ->
  backpressured s = false ->
  device n = None ->
  sendNotification_then Errors junk n c = (Throws TypeError, c, []).
Proof.
  intros Hs Hbp Hdev. unfold sendNotification_then.
  js_simpl. by rewrite Hs, Hbp, Hdev.
Qed.

Lemma sendNotification_then_too_large (c : Connection) (s : Socket)
    (junk : list Z) (n : Notification) (token : list Z) :
  socket c = Some s ->
  backpressured s = false ->
  device_token n = Some token ->
  255 < Z.of_nat (length (message n)) ->
  sendNotification_then Errors junk n c =
  (Normal tt, c,
   if errorCallback (options c)
   then [EvErrorCallback (invalidPayloadSize Errors) (Some n)] else []).
Proof.
  intros Hs Hbp Htok Hlen. unfold sendNotification_then, raiseError.
  js_simpl. rewrite Hs, Hbp, (device_token_Some n token Htok). simpl.
  destruct (Z.gtb_spec (Z.of_nat (length (message n))) 255) as [_|?]; [|lia].
  by destruct (errorCallback (options c)).
Qed.

Lemma sendNotification_then_no_socket (c : Connection) (junk : list Z)
    (n : Notification) :
  socket c = None ->
  sendNotification_then Errors junk n c = (Throws TypeError, c, []).
Proof.
  intros Hs. unfold sendNotification_then. js_simpl. by rewrite Hs.
Qed.

(** Whatever the notification and the state of the socket, the callback
    either leaves the identifiers alone, or gives [currentId] to the
    notification and moves to the next one; the connection is then left
    in one of four states. *)
Lemma sendNotification_then_cases (c : Connection) (junk : list Z)
    (n : Notification) :
  let r := sendNotification_then Errors junk n c in
  (assigned_uids (effects r) = [] /\
   (final r = c \/
    final r = with_notificationBuffer (notificationBuffer c ++ [n]) c)) \/
  (assigned_uids (effects r) = [currentId c] /\
   (final r = with_currentId (next_id (currentId c)) c \/
    (enhanced (options c) = true /\
     final r = final (cacheNotification (set_uid (currentId c) n)
                        (with_currentId (next_id (currentId c)) c))))).
Proof.
  simpl. destruct (socket c) as [s|] eqn:Hs.
  2: { rewrite sendNotification_then_no_socket by done. left. by split; [|left]. }
  destruct (backpressured s) eqn:Hbp.
  { rewrite (sendNotification_then_buffers c s) by done. left. by split; [|right]. }
  destruct (device n) as [[[token|]]|] eqn:Hdev.
  3: { rewrite (sendNotification_then_no_device c s) by done. left.
       by split; [|left]. }
  2: { rewrite (sendNotification_then_no_token c s) by done. left.
       split; [|by left]. by destruct (errorCallback (options c)). }
  assert (device_token n = Some token) as Htok
    by (unfold device_token; by rewrite Hdev).
  destruct (Z.gtb_spec (Z.of_nat (length (message n))) 255) as [Hlen|Hlen].
  { rewrite (sendNotification_then_too_large c s junk n token) by done. left.
    split; [|by left]. by destruct (errorCallback (options c)). }
  right. unfold sendNotification_then, next_id.
  destruct c as [o uid cached buf so d t q]. simpl in *. subst so.
  js_simpl. rewrite Hbp, Hdev. simpl.
  destruct (Z.gtb_spec (Z.of_nat (length (message n))) 255) as [?|_]; [lia|].
  simpl.
  destruct (uid + 1 >? 4294967295) eqn:Hwrap; simpl;
    destruct (enhanced o) eqn:Henh; simpl;
    repeat first
      [ rewrite cacheNotification_run
      | match goal with
        | |- context [match ?x with Some _ => _ | None => _ end] =>
            destruct x; simpl
        end ];
    simpl; auto.
Qed.

End Send.

(** ** Validation, encoding and backpressure *)

Section SendClaims.

Variable Errors : ErrorsTable.

(** C3. For a notification with a token, on a socket that takes the
    write: a payload of exactly 255 bytes is sent, the frame is written
    and no error is reported; a payload of 256 bytes or more is reported
    with [invalidPayloadSize] and the connection is left as it was.  In
    any state of the socket a notification with such a payload gets no
    identifier, is not cached and is not written. *)
Theorem payload_limit (c : Connection) (s : Socket) (junk : list Z)
    (n : Notification) (token : list Z) :
  socket c = Some s ->
  device_token n = Some token ->
  let r := sendNotification_then Errors junk n c in
  (length (message n) = 255%nat ->
   backpressured s = false ->
   Z.of_nat (length token) <= 0xffff ->
   0 <= expiry n <= 0xffffffff ->
   0 <= currentId c <= 0xffffffff ->
   result r = Normal tt /\
   callbacks (effects r) = [] /\
   writes (effects r) = [frame_of c (currentId c) n token]) /\
  ((256 <= length (message n))%nat ->
   writes (effects r) = [] /\
   assigned_uids (effects r) = [] /\
   cachedNotifications (final r) = cachedNotifications c /\
   currentId (final r) = currentId c /\
   (backpressured s = false ->
    result r = Normal tt /\ final r = c /\
    (errorCallback (options c) = true ->
     callbacks (effects r) = [(invalidPayloadSize Errors, Some n)]))).
Proof.
  intros Hs Htok r. subst r. split.
  - intros Hlen Hbp Htoklen Hexp Hid.
    rewrite (sendNotification_then_sends Errors c s junk n token)
      by (try done; lia).
    by repeat split.
  - intros Hlen. destruct (backpressured s) eqn:Hbp.
    + rewrite (sendNotification_then_buffers Errors c s) by done.
      by repeat split.
    + rewrite (sendNotification_then_too_large Errors c s junk n token)
        by (try done; lia).
      unfold result, final, effects. simpl.
      destruct (errorCallback (options c)); by repeat split.
Qed.

(** C6. A notification with a token and a payload of at most 255 bytes,
    sent on a socket that takes the write, gets the identifier
    [currentId] and one buffer is written.  In the enhanced variant it is
    the byte 1, the identifier and the expiry in 4 big-endian bytes each,
    the length of the token in 2 big-endian bytes, the token, the length
    of the payload in 2 big-endian bytes and the payload: 13 bytes more
    than the token and the payload.  In the simple variant it is the byte
    0, the length of the token, the token, the length of the payload and
    the payload. *)
Theorem frame_layout (c : Connection) (s : Socket) (junk : list Z)
    (n : Notification) (token : list Z) :
  socket c = Some s ->
  backpressured s = false ->
  device_token n = Some token ->
  (length (message n) <= 255)%nat ->
  Z.of_nat (length token) <= 0xffff ->
  0 <= expiry n <= 0xffffffff ->
  0 <= currentId c <= 0xffffffff ->
  let r := sendNotification_then Errors junk n c in
  let frame :=
    [1] ++ big_endian 4 (currentId c) ++ big_endian 4 (expiry n)
        ++ big_endian 2 (Z.of_nat (length token)) ++ token
        ++ big_endian 2 (Z.of_nat (length (message n))) ++ message n in
  let simple :=
    [0] ++ big_endian 2 (Z.of_nat (length token)) ++ token
        ++ big_endian 2 (Z.of_nat (length (message n))) ++ message n in
  assigned_uids (effects r) = [currentId c] /\
  (enhanced (options c) = true ->
   writes (effects r) = [frame] /\
   length frame = (13 + length token + length (message n))%nat) /\
  (enhanced (options c) = false -> writes (effects r) = [simple]).
Proof.
  intros Hs Hbp Htok Hlen Htoklen Hexp Hid. cbv zeta.
  rewrite (sendNotification_then_sends Errors c s junk n token)
    by (try done; lia).
  unfold effects, frame_of. split; [reflexivity|]. split.
  - intros ->. split; [reflexivity|].
    rewrite !length_app, !big_endian_length. simpl. lia.
  - intros ->. reflexivity.
Qed.

(** A 'drain' on a connected socket that takes the write, and the
    callback it schedules: the first notification of the buffer is sent
    again. *)
Lemma drain_sends_again (c : Connection) (s : Socket) (d : Deferred)
    (junk : list Z) (n : Notification) (rest : list Notification) :
  socket c = Some s ->
  backpressured s = false ->
  deferredConnection c = Some d -> d_state d = Fulfilled ->
  notificationBuffer c = n :: rest ->
  q_scheduled c = [] ->
  run Errors [SocketDrain; QThen junk] c =
  (final (sendNotification_then Errors junk n (with_notificationBuffer rest c)),
   effects (sendNotification_then Errors junk n (with_notificationBuffer rest c))).
Proof.
  intros Hs Hbp Hd Hful Hbuf Hq.
  assert (exec Errors SocketDrain c =
          (Normal tt,
           with_q_scheduled [n] (with_notificationBuffer rest c), []))
    as Hdrain.
  { unfold exec, listening, socketDrained, sendNotification, connect, q_then.
    destruct c as [o uid cached buf so dc t q]. simpl in *. subst.
    destruct d as [st th]. simpl in *. subst. js_simpl.
    by rewrite Hbp. }
  assert (exec Errors (QThen junk)
            (with_q_scheduled [n] (with_notificationBuffer rest c)) =
          sendNotification_then Errors junk n (with_notificationBuffer rest c))
    as Hthen.
  { unfold exec, bind, this, update. cbn [q_scheduled with_q_scheduled].
    replace (with_q_scheduled [] (with_q_scheduled [n]
               (with_notificationBuffer rest c)))
      with (with_notificationBuffer rest c)
      by (destruct c; simpl in *; by subst).
    by destruct (sendNotification_then Errors junk n
                   (with_notificationBuffer rest c)) as [[[a|e] c'] es]. }
  cbn [run]. rewrite Hdrain.
  change (final (Normal tt,
                 with_q_scheduled [n] (with_notificationBuffer rest c), []))
    with (with_q_scheduled [n] (with_notificationBuffer rest c)).
  rewrite Hthen. cbn [fst snd effects app]. by rewrite app_nil_r.
Qed.


(** C10. On a socket under backpressure the callback of
    [sendNotification] buffers the notification before it looks at it:
    whatever its token and its payload, it goes to the end of the buffer
    and nothing is reported.  The checks are made when a later 'drain'
    takes it from the buffer and sends it again; a notification without
    device raises its TypeError then, and nothing is reported. *)
Theorem backpressure_defers_validation (c : Connection) (s : Socket)
    (junk : list Z) (n : Notification) :
  socket c = Some s ->
  (backpressured s = true ->
   sendNotification_then Errors junk n c =
   (Normal tt, with_notificationBuffer (notificationBuffer c ++ [n]) c, [])) /\
  (forall d rest,
     backpressured s = false ->
     deferredConnection c = Some d -> d_state d = Fulfilled ->
     notificationBuffer c = n :: rest ->
     q_scheduled c = [] ->
     errorCallback (options c) = true ->
     (device n = Some {| token := None |} ->
      run Errors [SocketDrain; QThen junk] c =
      (with_notificationBuffer rest c,
       [EvErrorCallback (missingDeviceToken Errors) (Some n)])) /\
     (forall token,
        device_token n = Some token ->
        255 < Z.of_nat (length (message n)) ->
        run Errors [SocketDrain; QThen junk] c =
        (with_notificationBuffer rest c,
         [EvErrorCallback (invalidPayloadSize Errors) (Some n)])) /\
     (device n = None ->
      run Errors [SocketDrain; QThen junk] c =
      (with_notificationBuffer rest c, []))).
Proof.
  intros Hs. split.
  { intros Hbp. by apply (sendNotification_then_buffers Errors c s). }
  intros d rest Hbp Hd Hful Hbuf Hq Hcb.
  assert (exec Errors SocketDrain c =
          (Normal tt,
           with_q_scheduled [n] (with_notificationBuffer rest c), []))
    as Hdrain.
  { unfold exec, listening, socketDrained, sendNotification, connect, q_then.
    destruct c as [o uid cached buf so dc t q]. simpl in *. subst.
    destruct d as [st th]. simpl in *. subst. js_simpl.
    by rewrite Hbp. }
  assert (forall es,
    sendNotification_then Errors junk n (with_notificationBuffer rest c) =
      (Normal tt, with_notificationBuffer rest c, es) ->
    run Errors [SocketDrain; QThen junk] c =
      (with_notificationBuffer rest c, es)) as Hrun.
  { intros es Hthen. cbn [run]. rewrite Hdrain.
    unfold exec, final, effects. js_simpl.
    replace (with_q_scheduled [] (with_q_scheduled [n]
               (with_notificationBuffer rest c)))
      with (with_notificationBuffer rest c)
      by (destruct c; simpl in *; by subst).
    rewrite Hthen. simpl. by rewrite app_nil_r. }
  split; [|split].
  - intros Htok. apply Hrun.
    rewrite (sendNotification_then_no_token Errors _ s) by done.
    simpl. by rewrite Hcb.
  - intros token Htok Hlen. apply Hrun.
    rewrite (sendNotification_then_too_large Errors _ s junk n token) by done.
    simpl. by rewrite Hcb.
  - intros Hdev. rewrite (drain_sends_again c s d junk n rest) by done.
    by rewrite (sendNotification_then_no_device Errors _ s).
Qed.

End SendClaims.

(** ** Invariants of a run *)

Section Life.

Variable Errors : ErrorsTable.

Lemma next_id_range (uid : Z) :
  0 <= uid <= 0xffffffff -> 0 <= next_id uid <= 0xffffffff.
Proof.
  intros H. unfold next_id.
  destruct (Z.gtb_spec (uid + 1) 0xffffffff); lia.
Qed.

Lemma next_id_mod (uid : Z) :
  0 <= uid <= 0xffffffff -> next_id uid = (uid + 1) mod 2 ^ 32.
Proof.
  intros H. unfold next_id.
  destruct (Z.gtb_spec (uid + 1) 0xffffffff).
  - replace (uid + 1) with (2 ^ 32) by lia. by rewrite Z.mod_same.
  - rewrite Z.mod_small; lia.
Qed.

Lemma assigned_uids_app (es1 es2 : list event) :
  assigned_uids (es1 ++ es2) = assigned_uids es1 ++ assigned_uids es2.
Proof.
  induction es1 as [|e es1 IH]; [done|].
  destruct e; simpl; by rewrite ?IH.
Qed.

Ltac break_match :=
  match goal with
  | |- context [match ?x with _ => _ end] =>
      lazymatch x with
      | context [match _ with _ => _ end] => fail
      | _ => destruct x eqn:?; simpl in *
      end
  end.

Ltac crush_step :=
  intros [Hbound Hsimple Hid Hsock];
  unfold id_step;
  repeat break_match;
  (split; [constructor; simpl in *; auto; try congruence|]);
  unfold final, effects; simpl; auto.

Lemma handleTransmissionError_cases (data : Buffer.t) (c : Connection) :
  let r := handleTransmissionError Errors data c in
  assigned_uids (effects r) = [] /\
  (final r = c \/
   exists buffer',
     final r = with_notificationBuffer buffer' (with_cachedNotifications [] c)).
Proof.
  simpl.
  destruct (data !! 0%nat) as [command|] eqn:H0.
  2: { unfold handleTransmissionError. rewrite H0. by split; [|left]. }
  destruct (Z.eqb_spec command 8) as [->|Hne].
  2: { unfold handleTransmissionError. rewrite H0.
       apply Z.eqb_neq in Hne. rewrite Hne. by split; [|left]. }
  destruct (enhanced (options c)) eqn:Henh.
  2: { unfold handleTransmissionError. rewrite H0. js_simpl.
       rewrite Henh. simpl. by split; [|left]. }
  destruct (Buffer.readUInt32BE 2 data) as [identifier|] eqn:Hid.
  2: { unfold handleTransmissionError. rewrite H0, Hid. js_simpl.
       rewrite Henh. simpl. by split; [|left]. }
  destruct (data !! 1%nat) as [status|] eqn:H1.
  2: { unfold handleTransmissionError. rewrite H0, H1, Hid. js_simpl.
       rewrite Henh. simpl. by split; [|left]. }
  rewrite (handleTransmissionError_run Errors data c status identifier)
    by done.
  destruct (scan identifier (cachedNotifications c) [] None)
    as [[[found m] cached] temp].
  unfold final, effects. simpl. split.
  - rewrite assigned_uids_app.
    by destruct (errorCallback (options c)), found, (is_defined (socket c)).
  - right. eauto.
Qed.

Lemma exec_QThen (junk : list Z) (c : Connection) (n : Notification)
    (rest : list Notification) :
  q_scheduled c = n :: rest ->
  exec Errors (QThen junk) c =
  sendNotification_then Errors junk n (with_q_scheduled rest c).
Proof.
  intros Hq. unfold exec, bind, this, update. rewrite Hq.
  by destruct (sendNotification_then Errors junk n (with_q_scheduled rest c))
    as [[[a|e] c'] es].
Qed.

Lemma exec_SocketData (data : Buffer.t) (c : Connection) :
  exec Errors (SocketData data) c =
  if is_defined (socket c) then handleTransmissionError Errors data c
  else (Normal tt, c, []).
Proof.
  unfold exec, listening, bind, this, skip, ret.
  destruct (is_defined (socket c)); [|done].
  by destruct (handleTransmissionError Errors data c) as [[[a|e] c'] es].
Qed.

Lemma exec_step (o : op) (c : Connection) :
  consistent c ->
  consistent (final (exec Errors o c)) /\ id_step c (exec Errors o c).
Proof.
  destruct o as [n|junk|s| | |data| | | | | |size w].
  - (* sendNotification *)
    unfold exec, sendNotification, connect, q_then.
    destruct c as [o uid cached buf so dc t q]. js_simpl. crush_step.
  - (* the callback of sendNotification *)
    intros Hc. destruct (q_scheduled c) as [|n rest] eqn:Hq.
    { unfold exec. js_simpl. rewrite Hq. by split; [|split; [|left]]. }
    set (c1 := with_q_scheduled rest c).
    assert (consistent c1) as Hc1 by (by destruct Hc).
    rewrite (exec_QThen junk c n rest Hq). fold c1.
    unfold id_step.
    destruct (sendNotification_then_cases Errors c1 junk n)
      as [(-> & [-> | ->]) | (-> & [-> | (Henh & ->)])].
    + split; [done|]. split; [done|]. by left.
    + split; [by destruct Hc|]. split; [done|]. by left.
    + split; [|split; [done|by right]].
      destruct Hc as [Hbound Hsimple Hid Hsock].
      constructor; try done. by apply next_id_range.
    + rewrite cacheNotification_run. unfold final. simpl.
      split; [|split; [done|by right]].
      destruct Hc as [Hbound Hsimple Hid Hsock].
      constructor; simpl; try done.
      * intros HL.
        pose proof (cacheNotification_bound
                      (set_uid (currentId c) n)
                      (with_currentId (next_id (currentId c)) c1)) as Hb.
        rewrite cacheNotification_run in Hb. apply Hb; simpl; auto.
      * intros Hs. simpl in Henh. congruence.
      * by apply next_id_range.
  - unfold exec, initialized, isResolved.
    destruct c as [o uid cached buf so dc t q]. js_simpl. crush_step.
  - unfold exec, q_reject.
    destruct c as [o uid cached buf so dc t q]. js_simpl. crush_step.
  - unfold exec, listening, tlsConnected, socketDrained, sendNotification,
      connect, q_then, q_resolve, q_reject.
    destruct c as [o uid cached buf so dc t q]. js_simpl. crush_step.
  - (* an error frame *)
    intros Hc. rewrite exec_SocketData. unfold id_step.
    destruct (is_defined (socket c)).
    2: { by split; [|split; [|left]]. }
    destruct (handleTransmissionError_cases data c)
      as (-> & [-> | (buffer' & ->)]).
    + split; [done|]. split; [done|]. by left.
    + split; [|split; [done|by left]].
      destruct Hc as [Hbound Hsimple Hid Hsock].
      constructor; simpl; try done.
  - unfold exec, listening, socketDrained, sendNotification, connect, q_then.
    destruct c as [o uid cached buf so dc t q]. js_simpl. crush_step.
  - unfold exec, listening, destroyConnection.
    destruct c as [o uid cached buf so dc t q]. js_simpl. crush_step.
  - unfold exec, listening, restartConnection, connect, q_reject, isResolved.
    destruct c as [o uid cached buf so dc t q]. js_simpl. crush_step.
  - unfold exec, listening, restartConnection, connect, q_reject, isResolved.
    destruct c as [o uid cached buf so dc t q]. js_simpl. crush_step.
  - unfold exec, destroyConnection.
    destruct c as [o uid cached buf so dc t q]. js_simpl. crush_step.
  - unfold exec.
    destruct c as [o uid cached buf so dc t q]. js_simpl. crush_step.
Qed.

Lemma new_Connection_consistent (o : Options) : consistent (new_Connection o).
Proof. constructor; simpl; try done; lia. Qed.

Lemma run_consistent (ops : list op) (c : Connection) :
  consistent c ->
  consistent (run Errors ops c).1 /\
  options (run Errors ops c).1 = options c.
Proof.
  revert c. induction ops as [|o ops IH]; intros c Hc; [done|].
  cbn [run fst].
  destruct (exec_step o c Hc) as [Hc' [Hopt _]].
  destruct (IH _ Hc') as [? Hopt']. split; [done|]. congruence.
Qed.

(** The identifiers given out in a run count up from [currentId],
    modulo 2^32. *)
Lemma run_assigned_uids (ops : list op) (c : Connection) (i : nat) (id : Z) :
  consistent c ->
  assigned_uids (run Errors ops c).2 !! i = Some id ->
  id = (currentId c + Z.of_nat i) mod 2 ^ 32.
Proof.
  revert c i. induction ops as [|o ops IH]; intros c i Hc; [done|].
  cbn [run snd]. rewrite assigned_uids_app.
  pose proof (currentId_range c Hc) as Hrange.
  destruct (exec_step o c Hc) as [Hc' [_ [[-> Hcur] | [-> Hcur]]]].
  - simpl. intros Hi. rewrite <- Hcur. by apply IH.
  - destruct i as [|i]; simpl.
    + intros [= <-]. rewrite Z.add_0_r, Z.mod_small; lia.
    + intros Hi. apply IH in Hi; [|done]. rewrite Hi, Hcur.
      rewrite next_id_mod by done. rewrite Z.add_mod_idemp_l by lia.
      f_equal. lia.
Qed.

End Life.

(** ** The bound of the cache and the identifiers *)

Section Bounds.

Variable Errors : ErrorsTable.

(** C4. With a capacity that is not negative, the cache of a connection
    never holds more than [cacheLength] entries, whatever happens to the
    connection.  Caching keeps the bound: a notification cached when the
    cache is full takes the place of the oldest entry, which is dropped,
    and one cached when there is room is added at the end. *)
Theorem cache_never_exceeds_cacheLength :
  (forall (o : Options) (ops : list op),
     0 <= cacheLength o ->
     Z.of_nat (length (cachedNotifications (run Errors ops (new_Connection o)).1))
       <= cacheLength o) /\
  (forall (c : Connection) (n : Notification),
     0 <= cacheLength (options c) ->
     Z.of_nat (length (cachedNotifications c)) <= cacheLength (options c) ->
     let c' := final (cacheNotification n c) in
     Z.of_nat (length (cachedNotifications c')) <= cacheLength (options c) /\
     (Z.of_nat (length (cachedNotifications c)) = cacheLength (options c) ->
      cachedNotifications c' = tail (cachedNotifications c ++ [n]) /\
      forall oldest rest,
        cachedNotifications c = oldest :: rest ->
        cachedNotifications c' = rest ++ [n]) /\
     (Z.of_nat (length (cachedNotifications c)) < cacheLength (options c) ->
      cachedNotifications c' = cachedNotifications c ++ [n])).
Proof.
  split.
  - intros o ops Hlen.
    destruct (run_consistent Errors ops (new_Connection o)
                (new_Connection_consistent o)) as [Hc Hopt].
    pose proof (cache_bound _ Hc) as Hb. rewrite Hopt in Hb. by apply Hb.
  - intros c n Hlen Hb. cbv zeta. split; [by apply cacheNotification_bound|].
    rewrite cacheNotification_run. unfold final. simpl.
    rewrite length_app. simpl. split.
    + intros Hfull.
      destruct (Z.gtb_spec (Z.of_nat (length (cachedNotifications c) + 1))
                  (cacheLength (options c))); [|lia].
      split; [done|]. by intros oldest rest ->.
    + intros Hroom.
      destruct (Z.gtb_spec (Z.of_nat (length (cachedNotifications c) + 1))
                  (cacheLength (options c))); [lia|done].
Qed.

(** C5. In every run of a connection the identifiers are given out in
    order from 0: the identifier number [i] is [i] modulo 2^32, so each
    fits in 32 bits, each is one more than the one before, 0 follows
    2^32 - 1, and two identifiers less than 2^32 apart differ.  A send
    that succeeds gives [currentId] to the notification and moves on to
    the next identifier. *)
Theorem identifiers_count_up_and_wrap (o : Options) (ops : list op) :
  let ids := assigned_uids (run Errors ops (new_Connection o)).2 in
  (forall i id, ids !! i = Some id -> id = Z.of_nat i mod 2 ^ 32) /\
  (forall i id, ids !! i = Some id -> 0 <= id <= 0xffffffff) /\
  (forall i a b,
     ids !! i = Some a -> ids !! S i = Some b ->
     b = if a =? 0xffffffff then 0 else a + 1) /\
  (forall i j a b,
     (i < j)%nat -> Z.of_nat j - Z.of_nat i < 2 ^ 32 ->
     ids !! i = Some a -> ids !! j = Some b -> a <> b) /\
  (forall (c : Connection) (s : Socket) junk n token,
     socket c = Some s -> backpressured s = false ->
     device_token n = Some token ->
     Z.of_nat (length (message n)) <= 255 ->
     Z.of_nat (length token) <= 0xffff ->
     0 <= expiry n <= 0xffffffff ->
     0 <= currentId c <= 0xffffffff ->
     let r := sendNotification_then Errors junk n c in
     assigned_uids (effects r) = [currentId c] /\
     currentId (final r) = (currentId c + 1) mod 2 ^ 32).
Proof.
  cbv zeta.
  assert (forall i id,
            assigned_uids (run Errors ops (new_Connection o)).2 !! i = Some id ->
            id = Z.of_nat i mod 2 ^ 32) as Hnth.
  { intros i id Hi.
    apply run_assigned_uids in Hi; [|apply new_Connection_consistent].
    by rewrite Hi. }
  split; [exact Hnth|]. split; [|split; [|split]].
  - intros i id Hi. rewrite (Hnth i id Hi).
    pose proof (Z.mod_pos_bound (Z.of_nat i) (2 ^ 32)). lia.
  - intros i a b Ha Hb. rewrite (Hnth _ _ Ha), (Hnth _ _ Hb).
    rewrite Nat2Z.inj_succ. unfold Z.succ.
    rewrite <- (Z.add_mod_idemp_l (Z.of_nat i)) by lia.
    pose proof (Z.mod_pos_bound (Z.of_nat i) (2 ^ 32)) as Hr.
    destruct (Z.eqb_spec (Z.of_nat i mod 2 ^ 32) 0xffffffff) as [->|Hne].
    + reflexivity.
    + rewrite Z.mod_small; lia.
  - intros i j a b Hlt Hnear Ha Hb. rewrite (Hnth _ _ Ha), (Hnth _ _ Hb).
    intros Heq.
    assert ((Z.of_nat j - Z.of_nat i) mod 2 ^ 32 = 0) as Hz.
    { rewrite Zminus_mod, Heq, Z.sub_diag. reflexivity. }
    rewrite Z.mod_small in Hz; lia.
  - intros c s junk n token Hs Hbp Htok Hlen Htoklen Hexp Hid.
    rewrite (sendNotification_then_sends Errors c s junk n token) by done.
    unfold effects, final. simpl. split; [done|].
    rewrite <- next_id_mod by done. unfold after_send.
    destruct (enhanced (options c)); [|done].
    by rewrite cacheNotification_run.
Qed.

End Bounds.

(** ** What sendNotification returns, and the end of a connection *)

Section Lifecycle.

Variable Errors : ErrorsTable.


Lemma restartConnection_run (c : Connection) (d : Deferred) :
  deferredConnection c = Some d ->
  restartConnection c =
  (Normal tt,
   with_deferredConnection
     (match notificationBuffer c with [] => None | _ :: _ => Some q_defer end)
     (with_socket None c),
   (if is_defined (socket c) then [EvRemoveAllListeners] else []) ++
   (if connectionTimeout c then [EvClearTimeout] else []) ++
   (match notificationBuffer c with [] => [] | _ :: _ => [EvInitialize] end)).
Proof.
  intros Hd. unfold restartConnection, connect, q_reject, isResolved.
  destruct c as [o uid cached buf so dc t q]. simpl in *. subst dc.
  destruct d as [[] th], so, t, buf; js_simpl; reflexivity.
Qed.

(** C9. When the stream ends or closes, the socket is let go and the idle
    timer, if there is one, is cleared.  With notifications in the buffer
    one attempt to connect is started in the same step; with an empty
    buffer none is, the connection is left without socket and without
    connection promise, and nothing but a call of [sendNotification]
    starts an attempt from there. *)
Theorem teardown_reconnects_or_idles (o : op) (c : Connection)
    (s : Socket) (d : Deferred) :
  o = SocketEnd \/ o = SocketClose ->
  socket c = Some s ->
  deferredConnection c = Some d ->
  let r := exec Errors o c in
  result r = Normal tt /\
  socket (final r) = None /\
  notificationBuffer (final r) = notificationBuffer c /\
  (connectionTimeout c = true -> EvClearTimeout ∈ effects r) /\
  (notificationBuffer c <> [] ->
   attempts (effects r) = 1%nat /\
   deferredConnection (final r) = Some q_defer) /\
  (notificationBuffer c = [] ->
   attempts (effects r) = 0%nat /\
   deferredConnection (final r) = None /\
   forall o',
     (forall n, o' <> CallSendNotification n) ->
     let r' := exec Errors o' (final r) in
     attempts (effects r') = 0%nat /\
     deferredConnection (final r') = None /\
     socket (final r') = None).
Proof.
  intros Ho Hs Hd.
  assert (exec Errors o c = restartConnection c) as ->.
  { destruct Ho as [-> | ->]; unfold exec, listening, bind, this;
      rewrite Hs; simpl;
      by destruct (restartConnection c) as [[[a|e] c'] es]. }
  cbv zeta. rewrite (restartConnection_run c d Hd), Hs.
  unfold result, final, effects. cbn [fst snd is_defined].
  split; [done|]. split; [done|]. split; [by destruct c|]. split; [|split].
  - intros ->. apply list_elem_of_further, list_elem_of_here.
  - intros Hbuf. destruct (notificationBuffer c); [done|].
    split; [|done]. by destruct (connectionTimeout c).
  - intros ->. split; [by destruct (connectionTimeout c)|]. split; [done|].
    intros o' Hcall. cbv zeta.
    set (c' := with_deferredConnection None (with_socket None c)).
    destruct o' as [n|junk|s'| | |data| | | | | |size w];
      try (by unfold exec, listening, destroyConnection, q_reject;
              js_simpl).
    + by destruct (Hcall n).
    + destruct (q_scheduled c') as [|n rest] eqn:Hq.
      * unfold exec. js_simpl. by rewrite Hq.
      * rewrite (exec_QThen Errors junk c' n rest Hq).
        by rewrite sendNotification_then_no_socket.
Qed.

End Lifecycle.

(** ** Sample runs *)

(** C2, as stated, fails in the simple variant: the frame is dropped before
    anything is looked up, and the callback is not invoked. *)
Lemma unmatched_error_simple_variant :
  let data := [8; 8; 0; 0; 0; 99] in
  data !! 0%nat = Some 8 /\
  Buffer.readUInt32BE 2 data = Some 99 /\
  Forall (fun n => _uid n <> Some 99) (cachedNotifications simple_session) /\
  errorCallback (options simple_session) = true /\
  callbacks (effects (handleTransmissionError apn_errors data simple_session)) = [] /\
  ~ replays_whole_cache apn_errors simple_session data.
Proof.
  repeat split; try reflexivity.
  - vm_compute. constructor.
  - intros (_ & Hcb & _). vm_compute in Hcb. discriminate.
Qed.

Lemma matched_error_replays_newer_witness :
  exists older m newer,
    cachedNotifications sample_cache = older ++ m :: newer /\
    Forall (fun n => _uid n <> Some 7) older /\
    _uid m = Some 7 /\
    let r := handleTransmissionError apn_errors [8; 8; 0; 0; 0; 7] sample_cache in
    result r = Normal tt /\
    callbacks (effects r) = [(8, Some m)] /\
    cachedNotifications (final r) = [] /\
    notificationBuffer (final r) = notificationBuffer sample_cache ++ newer.
Proof.
  apply (matched_error_replays_newer apn_errors sample_cache [8; 8; 0; 0; 0; 7] 8 7).
  - reflexivity.
  - intros H. discriminate H.
  - reflexivity.
  - reflexivity.
  - reflexivity.
  - exists (sent 7). split; [|reflexivity].
    unfold sample_cache. simpl. apply list_elem_of_In. simpl. tauto.
Defined.

Lemma unmatched_error_replays_all_witness :
  replays_whole_cache apn_errors sample_cache [8; 8; 0; 0; 0; 99] /\
  handleTransmissionError apn_errors [8; 8; 0; 0; 0; 99] simple_session =
    (Normal tt, simple_session, []).
Proof.
  split.
  - assert (Forall (fun n => _uid n <> Some 99)
              (cachedNotifications sample_cache)) as Hnone.
    { unfold sample_cache. simpl.
      repeat constructor; intros H; discriminate H. }
    apply (proj1 (unmatched_error_replays_all apn_errors sample_cache
                    [8; 8; 0; 0; 0; 99] 8 99 eq_refl eq_refl eq_refl Hnone));
      reflexivity.
  - assert (Forall (fun n => _uid n <> Some 99)
              (cachedNotifications simple_session)) as Hnone.
    { vm_compute. constructor. }
    apply (proj2 (unmatched_error_replays_all apn_errors simple_session
                    [8; 8; 0; 0; 0; 99] 8 99 eq_refl eq_refl eq_refl Hnone)).
    reflexivity.
Defined.



Lemma payload_limit_witness :
  (let r := sendNotification_then apn_errors [] (sample 255)
              (connected sample_options open_socket) in
   result r = Normal tt /\
   callbacks (effects r) = [] /\
   writes (effects r) =
     [frame_of (connected sample_options open_socket) 0 (sample 255) sample_token]) /\
  (let r := sendNotification_then apn_errors [] (sample 256)
              (connected sample_options open_socket) in
   writes (effects r) = [] /\
   assigned_uids (effects r) = [] /\
   cachedNotifications (final r) = [] /\
   result r = Normal tt /\
   final r = connected sample_options open_socket /\
   callbacks (effects r) = [(7, Some (sample 256))]).
Proof.
  assert (0 <= 0 <= 0xffffffff) as Hrange by (split; vm_compute; discriminate).
  assert (Z.of_nat (length sample_token) <= 0xffff) as Htoken
    by (vm_compute; discriminate).
  split.
  - exact (proj1 (payload_limit apn_errors (connected sample_options open_socket)
                    open_socket [] (sample 255) sample_token eq_refl eq_refl)
             eq_refl eq_refl Htoken Hrange Hrange).
  - assert (256 <= length (message (sample 256)))%nat as Hlarge
      by (vm_compute; lia).
    destruct (proj2 (payload_limit apn_errors
                       (connected sample_options open_socket)
                       open_socket [] (sample 256) sample_token eq_refl eq_refl)
                Hlarge)
      as (Hwrites & Hids & Hcache & _ & Hready).
    destruct (Hready eq_refl) as (Hresult & Hfinal & Hcallback).
    split; [exact Hwrites|]. split; [exact Hids|]. split; [exact Hcache|].
    split; [exact Hresult|]. split; [exact Hfinal|].
    exact (Hcallback eq_refl).
Defined.

Lemma cache_never_exceeds_cacheLength_witness :
  Z.of_nat (length (cachedNotifications
                      (run apn_errors three_sends (new_Connection small_options)).1))
    <= 2 /\
  cachedNotifications (final (cacheNotification (sent 7) full_cache))
    = [sent 6; sent 7].
Proof.
  split.
  - apply (proj1 (cache_never_exceeds_cacheLength apn_errors)
             small_options three_sends).
    vm_compute. discriminate.
  - assert (0 <= cacheLength (options full_cache)) as Hlen
      by (vm_compute; discriminate).
    assert (Z.of_nat (length (cachedNotifications full_cache))
              <= cacheLength (options full_cache)) as Hb
      by (vm_compute; discriminate).
    apply (proj2 (proj1 (proj2 (proj2 (cache_never_exceeds_cacheLength apn_errors)
                                  full_cache (sent 7) Hlen Hb)) eq_refl)
             (sent 5) [sent 6] eq_refl).
Defined.

Lemma identifiers_count_up_and_wrap_witness :
  2 = Z.of_nat 2 mod 2 ^ 32 /\
  (let r := sendNotification_then apn_errors [] (sample 20) last_id in
   assigned_uids (effects r) = [0xffffffff] /\
   currentId (final r) = (0xffffffff + 1) mod 2 ^ 32).
Proof.
  split.
  - apply (proj1 (identifiers_count_up_and_wrap apn_errors sample_options
                    three_sends) 2%nat 2).
    reflexivity.
  - apply (proj2 (proj2 (proj2 (proj2
             (identifiers_count_up_and_wrap apn_errors sample_options []))))
             last_id open_socket [] (sample 20) sample_token
             eq_refl eq_refl eq_refl).
    + vm_compute. discriminate.
    + vm_compute. discriminate.
    + split; vm_compute; discriminate.
    + split; vm_compute; discriminate.
Defined.

Lemma frame_layout_witness :
  let r := sendNotification_then apn_errors [9; 9; 9] (sample 20)
             (connected sample_options open_socket) in
  let r' := sendNotification_then apn_errors [9; 9; 9] (sample 20)
              (connected simple_options open_socket) in
  assigned_uids (effects r) = [0] /\
  writes (effects r) =
    [[1; 0; 0; 0; 0; 0; 0; 0; 0; 0; 32] ++ sample_token
       ++ [0; 20] ++ message (sample 20)] /\
  writes (effects r') =
    [[0; 0; 32] ++ sample_token ++ [0; 20] ++ message (sample 20)].
Proof.
  assert (0 <= 0 <= 0xffffffff) as Hrange by (split; vm_compute; discriminate).
  assert (Z.of_nat (length sample_token) <= 0xffff) as Htoken
    by (vm_compute; discriminate).
  assert (length (message (sample 20)) <= 255)%nat as Hpayload
    by (vm_compute; lia).
  destruct (frame_layout apn_errors (connected sample_options open_socket)
              open_socket [9; 9; 9] (sample 20) sample_token
              eq_refl eq_refl eq_refl Hpayload Htoken Hrange Hrange)
    as (Hids & Henhanced & _).
  destruct (frame_layout apn_errors (connected simple_options open_socket)
              open_socket [9; 9; 9] (sample 20) sample_token
              eq_refl eq_refl eq_refl Hpayload Htoken Hrange Hrange)
    as (_ & _ & Hsimple).
  split; [exact Hids|]. split.
  - exact (proj1 (Henhanced eq_refl)).
  - exact (Hsimple eq_refl).
Defined.


Lemma teardown_reconnects_or_idles_witness :
  (let r := exec apn_errors SocketEnd (waiting (sample 20)) in
   attempts (effects r) = 1%nat /\
   deferredConnection (final r) = Some q_defer) /\
  (let r := exec apn_errors SocketClose (connected sample_options open_socket) in
   attempts (effects r) = 0%nat /\
   deferredConnection (final r) = None /\ socket (final r) = None).
Proof.
  split.
  - apply (proj1 (proj2 (proj2 (proj2 (proj2
             (teardown_reconnects_or_idles apn_errors SocketEnd
                (waiting (sample 20)) open_socket
                {| d_state := Fulfilled; d_thens := [] |}
                (or_introl eq_refl) eq_refl eq_refl)))))).
    discriminate.
  - pose proof (teardown_reconnects_or_idles apn_errors SocketClose
                  (connected sample_options open_socket) open_socket
                  {| d_state := Fulfilled; d_thens := [] |}
                  (or_intror eq_refl) eq_refl eq_refl) as H.
    cbv zeta in H. destruct H as (_ & Hsock & _ & _ & _ & Hidle).
    destruct (Hidle eq_refl) as (Hatt & Hdef & _).
    cbv zeta. auto.
Defined.

Lemma backpressure_defers_validation_witness :
  sendNotification_then apn_errors [] tokenless busy_session =
    (Normal tt,
     with_notificationBuffer (notificationBuffer busy_session ++ [tokenless])
       busy_session, []) /\
  run apn_errors [SocketDrain; QThen []] (waiting tokenless) =
    (with_notificationBuffer [] (waiting tokenless),
     [EvErrorCallback 2 (Some tokenless)]) /\
  run apn_errors [SocketDrain; QThen []] (waiting (sample 300)) =
    (with_notificationBuffer [] (waiting (sample 300)),
     [EvErrorCallback 7 (Some (sample 300))]).
Proof.
  split; [|split].
  - apply (proj1 (backpressure_defers_validation apn_errors busy_session
                    full_socket [] tokenless eq_refl)).
    reflexivity.
  - apply (proj1 (proj2 (backpressure_defers_validation apn_errors
                           (waiting tokenless) open_socket [] tokenless eq_refl)
                    {| d_state := Fulfilled; d_thens := [] |} []
                    eq_refl eq_refl eq_refl eq_refl eq_refl eq_refl)).
    reflexivity.
  - apply (proj1 (proj2 (proj2 (backpressure_defers_validation apn_errors
                           (waiting (sample 300)) open_socket [] (sample 300)
                           eq_refl)
                    {| d_state := Fulfilled; d_thens := [] |} []
                    eq_refl eq_refl eq_refl eq_refl eq_refl eq_refl))
             sample_token eq_refl).
    vm_compute. reflexivity.
Defined.


(** ** Properties of the loading of the credentials *)

Section CredentialFacts.

Lemma start_ok (cert key : option Credentials.material) :
  loading_ok (Credentials.start (Credentials.fresh cert key)).
Proof. constructor; simpl; try done. Qed.

Lemma existsb_filter_other (f g : Credentials.file) (l : list Credentials.file) :
  existsb (Credentials.file_eqb g)
    (List.filter (fun h => negb (Credentials.file_eqb f h)) l) =
  negb (Credentials.file_eqb f g) && existsb (Credentials.file_eqb g) l.
Proof.
  induction l as [|h l IH]; simpl.
  - by rewrite andb_false_r.
  - destruct f, g, h; simpl; rewrite ?IH; simpl; try done;
      by rewrite ?orb_false_r, ?andb_true_r, ?andb_false_r.
Qed.

Lemma exec_ok (s : Credentials.step) (w : Credentials.world) :
  loading_ok w -> loading_ok (Credentials.exec s w).1.
Proof.
  intros [Hc Hk Hf Hp Hi].
  destruct w as [[oc ok c k d] rd]. simpl in *.
  destruct s as [|f r].
  - unfold Credentials.exec, Credentials.initialize,
      Credentials.checkInitialized, Credentials.settle. simpl.
    destruct d as [st|].
    { constructor; simpl; rewrite ?app_nil_r; auto. }
    destruct (Hi eq_refl) as (-> & -> & ->).
    destruct (Credentials.truthy oc) eqn:Hoc, (Credentials.truthy ok) eqn:Hok;
      simpl; repeat (rewrite ?Hoc, ?Hok; simpl);
      constructor; simpl; try done; auto;
      intros; by rewrite ?andb_false_r.
  - unfold Credentials.exec. simpl.
    destruct (existsb (Credentials.file_eqb f) rd) eqn:Hin; [|by constructor].
    simpl.
    assert (d <> None) as Hd.
    { intros ->. destruct (Hi eq_refl) as (_ & _ & ->). done. }
    destruct d as [st|]; [clear Hd|done].
    unfold Credentials.loaded, Credentials.checkInitialized, Credentials.settle.
    pose proof (existsb_filter_other f Credentials.Cert rd) as HfC.
    pose proof (existsb_filter_other f Credentials.Key rd) as HfK.
    destruct f; simpl in *;
      [specialize (Hc Hin); subst c | specialize (Hk Hin); subst k];
      destruct r as [[|b data]|]; simpl;
      try destruct (Credentials.truthy k) eqn:Htk;
      try destruct (Credentials.truthy c) eqn:Htc;
      simpl; destruct st; simpl;
      constructor; simpl; rewrite ?HfC, ?HfK; simpl; intros;
      rewrite ?Htk, ?Htc, ?andb_false_r; try done; auto;
      try congruence;
      try (match goal with
           | H : _ = Some Fulfilled |- _ => destruct (Hf H); congruence
           end).
Qed.

Lemma run_ok (steps : list Credentials.step) (w : Credentials.world) :
  loading_ok w -> loading_ok (Credentials.run steps w).1.
Proof.
  revert w. induction steps as [|s steps IH]; intros w Hw; [done|].
  simpl. apply IH. by apply exec_ok.
Qed.

Lemma settle_keeps (to st : PromiseState) (k : Credentials.t) :
  Credentials.deferredInitialize k = Some st ->
  exists st',
    Credentials.deferredInitialize (Credentials.settle to k).2 = Some st' /\
    (st <> Pending -> st' = st).
Proof.
  intros Hd. unfold Credentials.settle. rewrite Hd.
  destruct st; simpl.
  - exists to. by split.
  - exists Fulfilled. by split; [rewrite Hd|].
  - exists Rejected. by split; [rewrite Hd|].
Qed.

Lemma checkInitialized_keeps (st : PromiseState) (k : Credentials.t) :
  Credentials.deferredInitialize k = Some st ->
  exists st',
    Credentials.deferredInitialize (Credentials.checkInitialized k).2 = Some st' /\
    (st <> Pending -> st' = st).
Proof.
  intros Hd. unfold Credentials.checkInitialized.
  destruct (_ && _).
  - by apply settle_keeps.
  - exists st. by split.
Qed.

(** Once [deferredInitialize] exists no step starts a read, and the
    promise, once settled, keeps its state. *)
Lemma exec_initialized (s : Credentials.step) (w : Credentials.world)
    (st : PromiseState) :
  Credentials.deferredInitialize (Credentials.object w) = Some st ->
  (Credentials.exec s w).2 = [] /\
  exists st',
    Credentials.deferredInitialize (Credentials.object (Credentials.exec s w).1)
      = Some st' /\
    (st <> Pending -> st' = st).
Proof.
  intros Hd. destruct s as [|f r].
  - unfold Credentials.exec, Credentials.initialize. rewrite Hd. simpl.
    split; [done|]. exists st. by split.
  - unfold Credentials.exec.
    destruct (existsb (Credentials.file_eqb f) (Credentials.reading w)).
    2: { split; [done|]. exists st. by split. }
    split; [done|]. cbn [fst Credentials.object].
    unfold Credentials.loaded. destruct r as [data|].
    + apply checkInitialized_keeps. by destruct f.
    + by apply settle_keeps.
Qed.

Lemma credentials_run_cons (s : Credentials.step) (steps : list Credentials.step)
    (w : Credentials.world) :
  Credentials.run (s :: steps) w =
  ((Credentials.run steps (Credentials.exec s w).1).1,
   (Credentials.exec s w).2 ++ (Credentials.run steps (Credentials.exec s w).1).2).
Proof. cbn [Credentials.run]. exact eq_refl. Qed.

Lemma run_initialized_reads (steps : list Credentials.step) (w : Credentials.world)
    (st : PromiseState) :
  Credentials.deferredInitialize (Credentials.object w) = Some st ->
  (Credentials.run steps w).2 = [].
Proof.
  revert w st. induction steps as [|s steps IH]; intros w st Hd.
  { exact eq_refl. }
  rewrite credentials_run_cons.
  destruct (exec_initialized s w st Hd) as (Hnil & st' & Hd' & Hkeep).
  revert Hnil Hd'. generalize (Credentials.exec s w).
  intros [w' out] Hnil Hd'. cbn [fst snd] in *. subst out.
  exact (IH w' st' Hd').
Qed.

Lemma run_initialized_settled (steps : list Credentials.step)
    (w : Credentials.world) (st : PromiseState) :
  Credentials.deferredInitialize (Credentials.object w) = Some st ->
  st <> Pending ->
  Credentials.deferredInitialize (Credentials.object (Credentials.run steps w).1)
    = Some st.
Proof.
  revert w st. induction steps as [|s steps IH]; intros w st Hd Hst.
  { exact Hd. }
  rewrite credentials_run_cons.
  destruct (exec_initialized s w st Hd) as (Hnil & st' & Hd' & Hkeep).
  specialize (Hkeep Hst). subst st'.
  exact (IH _ st Hd' Hst).
Qed.

Lemma initialize_defers (k : Credentials.t) :
  exists st,
    Credentials.deferredInitialize (Credentials.initialize k).1.2 = Some st.
Proof.
  unfold Credentials.initialize.
  destruct (Credentials.deferredInitialize k) as [st|] eqn:Hd.
  - exists st. exact Hd.
  - cbv zeta. cbn [fst snd].
    edestruct (checkInitialized_keeps Pending) as (st' & H & _);
      [|exists st'; exact H].
    destruct (Credentials.truthy _); cbn [fst];
      destruct (Credentials.truthy _); reflexivity.
Qed.

Lemma initialize_fresh_reads (cert key : option Credentials.material) :
  (Credentials.initialize (Credentials.fresh cert key)).2 =
  (if Credentials.truthy cert then [] else [Credentials.Cert]) ++
  (if Credentials.truthy key then [] else [Credentials.Key]).
Proof.
  destruct cert as [[[|c0 c]|b]|]; destruct key as [[[|k0 k]|b']|];
    vm_compute; reflexivity.
Qed.

(** X1. With certificate and key given in the options, [initialize]
    fulfils its promise at once and reads no file.  With neither given, it
    asks for both files, and the promise is fulfilled when both have been
    read with some content, in whichever order the reads end; after the
    first of them it is still pending. *)
Theorem initialize_fulfils_when_both_present :
  (forall cert key,
     Credentials.truthy cert = true -> Credentials.truthy key = true ->
     Credentials.initialize (Credentials.fresh cert key) =
     (Normal tt,
      Credentials.with_deferredInitialize (Some Fulfilled)
        (Credentials.with_keyData key
           (Credentials.with_certData cert (Credentials.fresh cert key))),
      [])) /\
  (forall cert key c k f g,
     Credentials.truthy cert = false -> Credentials.truthy key = false ->
     c <> [] -> k <> [] ->
     (f = Credentials.Cert /\ g = Credentials.Key) \/
     (f = Credentials.Key /\ g = Credentials.Cert) ->
     let data h := match h with Credentials.Cert => c | Credentials.Key => k end in
     let first :=
       Credentials.run [Credentials.CallInitialize;
                        Credentials.FileRead f (Some (data f))]
         (Credentials.start (Credentials.fresh cert key)) in
     let both := Credentials.run [Credentials.FileRead g (Some (data g))] first.1 in
     first.2 = [Credentials.Cert; Credentials.Key] /\
     Credentials.deferredInitialize (Credentials.object first.1) = Some Pending /\
     both.2 = [] /\
     Credentials.deferredInitialize (Credentials.object both.1) = Some Fulfilled /\
     Credentials.certData (Credentials.object both.1) = Some (Credentials.Text c) /\
     Credentials.keyData (Credentials.object both.1) = Some (Credentials.Text k)).
Proof.
  split.
  - intros cert key Hc Hk.
    destruct cert as [[[|c0 c]|b]|]; try discriminate Hc;
      destruct key as [[[|k0 k]|b']|]; try discriminate Hk;
      vm_compute; reflexivity.
  - intros cert key c k f g Hc Hk Hcn Hkn Hfg. cbv zeta.
    destruct c as [|c0 c]; [done|]. destruct k as [|k0 k]; [done|].
    destruct cert as [[[|c1 cert]|b]|]; try discriminate Hc;
      destruct key as [[[|k1 key]|b']|]; try discriminate Hk;
      destruct Hfg as [[-> ->] | [-> ->]]; vm_compute; repeat split.
Qed.

(** X2. In every run of [initialize] and of the callbacks of its reads,
    the promise is fulfilled only while both [certData] and [keyData] hold
    material that is not the empty string, and it is pending only while one
    of them does not: a file that is read but empty leaves the promise
    pending. *)
Theorem initialize_promise_tells_presence (cert key : option Credentials.material)
    (steps : list Credentials.step) :
  let k := Credentials.object
             (Credentials.run steps (Credentials.start (Credentials.fresh cert key))).1 in
  (Credentials.deferredInitialize k = Some Fulfilled ->
   Credentials.truthy (Credentials.certData k) = true /\
   Credentials.truthy (Credentials.keyData k) = true) /\
  (Credentials.deferredInitialize k = Some Pending ->
   Credentials.truthy (Credentials.certData k) = false \/
   Credentials.truthy (Credentials.keyData k) = false) /\
  (forall data,
     Credentials.certData k = Some (Credentials.Text data) ->
     Credentials.deferredInitialize k = Some Fulfilled -> data <> []).
Proof.
  cbv zeta.
  pose proof (run_ok steps _ (start_ok cert key)) as [_ _ Hf Hp _].
  split; [exact Hf|]. split.
  - intros Hpend. apply Hp in Hpend. by apply andb_false_iff.
  - intros data Hdata Hful. destruct (Hf Hful) as [Hc _].
    rewrite Hdata in Hc. by destruct data.
Qed.

(** X3. A read that fails while the promise is pending rejects it, and
    the rejection is final: whatever is called or read afterwards, the
    promise stays rejected and no read is started again. *)
Theorem failed_read_is_final (w : Credentials.world) (f : Credentials.file)
    (steps : list Credentials.step) :
  existsb (Credentials.file_eqb f) (Credentials.reading w) = true ->
  Credentials.deferredInitialize (Credentials.object w) = Some Pending ->
  let failed := (Credentials.exec (Credentials.FileRead f None) w).1 in
  let after := Credentials.run steps failed in
  Credentials.deferredInitialize (Credentials.object failed) = Some Rejected /\
  Credentials.deferredInitialize (Credentials.object after.1) = Some Rejected /\
  after.2 = [].
Proof.
  intros Hin Hpend. cbv zeta.
  assert (Credentials.deferredInitialize
            (Credentials.object (Credentials.exec (Credentials.FileRead f None) w).1)
          = Some Rejected) as Hrej.
  { unfold Credentials.exec, Credentials.loaded, Credentials.settle.
    rewrite Hin. simpl. by rewrite Hpend. }
  split; [done|].
  split.
  - by apply run_initialized_settled.
  - by apply (run_initialized_reads steps _ Rejected).
Qed.

(** X4. In every run no file is read twice, and a file is read only when
    its material is not given in the options. *)
Theorem files_read_at_most_once (cert key : option Credentials.material)
    (steps : list Credentials.step) :
  let reads :=
    (Credentials.run steps (Credentials.start (Credentials.fresh cert key))).2 in
  NoDup reads /\
  (Credentials.Cert ∈ reads -> Credentials.truthy cert = false) /\
  (Credentials.Key ∈ reads -> Credentials.truthy key = false).
Proof.
  cbv zeta.
  assert (forall w,
            Credentials.deferredInitialize (Credentials.object w) = None ->
            Credentials.reading w = [] ->
            (Credentials.run steps w).2 = [] \/
            (Credentials.run steps w).2 = (Credentials.initialize (Credentials.object w)).2)
    as Hreads.
  { induction steps as [|s steps IH]; intros w Hd Hr; [by left|].
    rewrite credentials_run_cons. cbn [snd].
    destruct s as [|f r].
    - right. destruct (initialize_defers (Credentials.object w)) as [st Hst].
      unfold Credentials.exec. cbv zeta. cbn [fst snd].
      rewrite (run_initialized_reads steps
                 (Credentials.mkWorld
                    (Credentials.initialize (Credentials.object w)).1.2
                    (Credentials.reading w
                     ++ (Credentials.initialize (Credentials.object w)).2))
                 st Hst).
      by rewrite app_nil_r.
    - unfold Credentials.exec. rewrite Hr. cbn [existsb fst snd app].
      by apply IH. }
  destruct (Hreads (Credentials.start (Credentials.fresh cert key)) eq_refl eq_refl)
    as [-> | ->].
  { split; [constructor|]. split; intros H; by apply elem_of_nil in H. }
  cbn [Credentials.start Credentials.object].
  rewrite initialize_fresh_reads.
  destruct (Credentials.truthy cert), (Credentials.truthy key); cbn [app];
    rewrite ?NoDup_cons, ?elem_of_cons, ?elem_of_nil;
    repeat split; try done; try (by constructor); intuition discriminate.
Qed.

End CredentialFacts.

(** ** More on error frames *)

Section ErrorFrames.

Variable Errors : ErrorsTable.

Lemma readUInt32BE_short (offset : nat) (data : Buffer.t) :
  (length data < offset + 4)%nat -> Buffer.readUInt32BE offset data = None.
Proof.
  intros Hlen. unfold Buffer.readUInt32BE.
  rewrite (lookup_ge_None_2 data (offset + 3)) by lia.
  by destruct (data !! offset), (data !! (offset + 1)%nat),
       (data !! (offset + 2)%nat).
Qed.

(** X5. Data that does not start with the byte 8 is ignored: nothing
    changes and nothing happens.  In the enhanced variant data that starts
    with 8 but has fewer than six bytes raises an exception before anything
    is touched: the cache, the buffer and the socket are as they were. *)
Theorem incomplete_frame_changes_nothing (c : Connection) (data : Buffer.t) :
  (data !! 0%nat <> Some 8 ->
   handleTransmissionError Errors data c = (Normal tt, c, [])) /\
  (data !! 0%nat = Some 8 -> enhanced (options c) = true ->
   (length data < 6)%nat ->
   handleTransmissionError Errors data c = (Throws AssertionError, c, [])).
Proof.
  split.
  - intros Hne. unfold handleTransmissionError.
    destruct (data !! 0%nat) as [command|]; [|done].
    destruct (Z.eqb_spec command 8) as [->|_]; [done|done].
  - intros H0 Henh Hlen. unfold handleTransmissionError.
    rewrite H0, readUInt32BE_short by lia. js_simpl. by rewrite Henh.
Qed.

(** X6. A complete error frame in the enhanced variant, matched or not,
    empties the cache and appends a suffix of it to the buffer, in the
    order it had: nothing is replayed twice or out of order.  The handler
    asks the socket to close if there is one, invokes the callback at most
    once, writes nothing and leaves the identifiers, the socket and the
    connection promise alone. *)
Theorem error_frame_replays_a_suffix (c : Connection) (data : Buffer.t)
    (status identifier : Z) :
  data !! 0%nat = Some 8 ->
  data !! 1%nat = Some status ->
  Buffer.readUInt32BE 2 data = Some identifier ->
  enhanced (options c) = true ->
  let r := handleTransmissionError Errors data c in
  result r = Normal tt /\
  cachedNotifications (final r) = [] /\
  (exists k, notificationBuffer (final r)
             = notificationBuffer c ++ drop k (cachedNotifications c)) /\
  final r = with_notificationBuffer (notificationBuffer (final r))
              (with_cachedNotifications [] c) /\
  writes (effects r) = [] /\
  assigned_uids (effects r) = [] /\
  attempts (effects r) = 0%nat /\
  length (callbacks (effects r)) = (if errorCallback (options c) then 1 else 0)%nat /\
  (EvDestroySoon ∈ effects r <-> is_defined (socket c) = true).
Proof.
  intros H0 H1 Hid Henh. cbv zeta.
  rewrite (handleTransmissionError_run Errors data c status identifier) by done.
  assert (exists found m cached temp k,
            scan identifier (cachedNotifications c) [] None
            = (found, m, cached, temp) /\
            (if found then cached else temp) = drop k (cachedNotifications c))
    as (found & m & cached & temp & k & -> & Hk).
  { destruct (first_match identifier (cachedNotifications c))
      as [(older & x & newer & Hsplit & Hold & Hx)|Hnone].
    - exists true, (Some x), newer, older, (S (length older)).
      rewrite Hsplit, scan_found by done. split; [done|].
      rewrite cons_middle, app_assoc.
      rewrite drop_app_length'; [done|]. rewrite length_app. simpl. lia.
    - destruct (scan_not_found identifier (cachedNotifications c) [] None Hnone)
        as [m ->].
      by exists false, m, [], (cachedNotifications c), 0%nat. }
  unfold result, final, effects. cbn [fst snd]. rewrite Hk.
  split; [done|]. split; [done|]. split; [by exists k|].
  split; [by destruct c|].
  destruct (errorCallback (options c)), found, (is_defined (socket c));
    cbn; rewrite ?elem_of_cons, ?elem_of_nil;
    repeat split; try done; intuition discriminate.
Qed.

(** X7. What is sent can be reported.  A notification that the
    connection does not already hold, in its cache or in its buffer, is
    sent in the enhanced variant, with a cache of at least one entry in
    which no notification carries the identifier that is about to be given
    out.  Then the identifier read back from the frame that was written is
    the one the notification was given, and an error frame that names it
    has the callback invoked once, with the status of the frame and that
    notification; the cache is left empty and nothing is put in the
    buffer. *)
Theorem sent_notification_is_reported (c : Connection) (s : Socket)
    (junk : list Z) (n : Notification) (token : list Z) (status : Z) :
  socket c = Some s ->
  backpressured s = false ->
  device_token n = Some token ->
  Z.of_nat (length (message n)) <= 255 ->
  Z.of_nat (length token) <= 0xffff ->
  0 <= expiry n <= 0xffffffff ->
  0 <= currentId c <= 0xffffffff ->
  enhanced (options c) = true ->
  errorCallback (options c) = true ->
  1 <= cacheLength (options c) ->
  Forall (fun m => _uid m <> Some (currentId c)) (cachedNotifications c) ->
  n ∉ cachedNotifications c ->
  n ∉ notificationBuffer c ->
  let sent := sendNotification_then Errors junk n c in
  let r := handleTransmissionError Errors
             ([8; status] ++ big_endian 4 (currentId c)) (final sent) in
  (exists frame,
     writes (effects sent) = [frame] /\
     Buffer.readUInt32BE 1 frame = Some (currentId c)) /\
  result r = Normal tt /\
  callbacks (effects r) = [(status, Some (set_uid (currentId c) n))] /\
  cachedNotifications (final r) = [] /\
  notificationBuffer (final r) = notificationBuffer c.
Proof.
  intros Hs Hbp Htok Hmsg Htoklen Hexp Hid Henh Hcb HL Hfresh _ _. cbv zeta.
  rewrite (sendNotification_then_sends Errors c s junk n token) by done.
  unfold effects, final, frame_of, after_send. simpl. rewrite Henh.
  rewrite cacheNotification_run. simpl. split.
  { eexists. split; [reflexivity|]. unfold enhanced_frame.
    apply (readUInt32BE_big_endian [1]). done. }
  set (n' := set_uid (currentId c) n).
  set (cached' := if Z.of_nat (length (cachedNotifications c ++ [n']))
                       >? cacheLength (options c)
                  then tail (cachedNotifications c ++ [n'])
                  else cachedNotifications c ++ [n']).
  assert (exists older, cached' = older ++ [n'] /\
                        Forall (fun m => uid_is (currentId c) m = false) older)
    as (older & Hcached & Hold).
  { assert (Forall (fun m => uid_is (currentId c) m = false)
              (cachedNotifications c)) as Hall.
    { eapply Forall_impl; [exact Hfresh|]. intros x. by rewrite uid_is_false. }
    subst cached'.
    destruct (Z.gtb_spec (Z.of_nat (length (cachedNotifications c ++ [n'])))
                (cacheLength (options c))); [|by eauto].
    destruct (cachedNotifications c) as [|x l].
    - rewrite length_app in *. simpl in *. lia.
    - simpl. exists l. split; [done|]. by inversion Hall. }
  rewrite (handleTransmissionError_run Errors _ _ status (currentId c)).
  2: done. 2: done.
  2: { apply (readUInt32BE_big_endian [8; status] []). done. }
  2: done.
  simpl. fold n'. fold cached'. rewrite Hcached.
  rewrite scan_found by (done || (unfold uid_is; simpl; by rewrite Z.eqb_refl)).
  rewrite Hcb. unfold result, final, effects. simpl.
  rewrite app_nil_r. by destruct (is_defined (socket c)).
Qed.

End ErrorFrames.

(** ** More on the callback of sendNotification *)

Section SendEdges.

Variable Errors : ErrorsTable.

Lemma writeUInt32BE_rejects (v : Z) (pos : nat) (b : Buffer.t) :
  ~ 0 <= v <= 0xffffffff -> Buffer.writeUInt32BE v pos b = None.
Proof.
  intros Hv. unfold Buffer.writeUInt32BE, Buffer.verifuint.
  destruct (Z.leb_spec 0 v), (Z.leb_spec v 0xffffffff); simpl; try done. lia.
Qed.

Lemma writeUInt16BE_rejects (v : Z) (pos : nat) (b : Buffer.t) :
  ~ 0 <= v <= 0xffff -> Buffer.writeUInt16BE v pos b = None.
Proof.
  intros Hv. unfold Buffer.writeUInt16BE, Buffer.verifuint.
  destruct (Z.leb_spec 0 v), (Z.leb_spec v 0xffff); simpl; try done. lia.
Qed.

Local Opaque Buffer.writeUInt32BE Buffer.writeUInt16BE Buffer.copy
  Buffer.set Buffer.alloc big_endian filled cacheNotification.

Ltac offsets :=
  simpl;
  repeat (first [rewrite length_app | rewrite big_endian_length
                | rewrite alloc_length]; simpl);
  lia.

Ltac begin_fill :=
  match goal with
  | |- context [Buffer.alloc ?j ?size] =>
      change (Buffer.alloc j size) with (filled [] (Buffer.alloc j size))
  end.

Ltac enter_send Hbp Htok :=
  unfold sendNotification_then, after_send, frame_of, next_id;
  match goal with
  | c : Connection |- _ => destruct c as [o uid cached buf so d t q]
  end;
  simpl in *; subst; js_simpl;
  rewrite Hbp, (device_token_Some _ _ Htok); simpl;
  match goal with
  | |- context [Z.of_nat (length (message ?n)) >? 255] =>
      destruct (Z.gtb_spec (Z.of_nat (length (message n))) 255) as [?|_];
      [lia|]
  end;
  simpl.

Lemma sendNotification_then_bad_expiry (c : Connection) (s : Socket)
    (junk : list Z) (n : Notification) (token : list Z) :
  socket c = Some s ->
  backpressured s = false ->
  device_token n = Some token ->
  Z.of_nat (length (message n)) <= 255 ->
  0 <= currentId c <= 0xffffffff ->
  enhanced (options c) = true ->
  ~ 0 <= expiry n <= 0xffffffff ->
  sendNotification_then Errors junk n c =
  (Throws AssertionError, with_currentId (next_id (currentId c)) c,
   [EvSetUid n (currentId c)]).
Proof.
  intros Hs Hbp Htok Hmsg Hid Henh Hexp.
  enter_send Hbp Htok.
  destruct (uid + 1 >? 4294967295) eqn:Hwrap; simpl; rewrite Henh; simpl;
    begin_fill; (rewrite set_filled by offsets); simpl;
    (rewrite writeUInt32BE_filled by offsets); simpl;
    (rewrite writeUInt32BE_rejects by done); reflexivity.
Qed.

Lemma sendNotification_then_long_token (c : Connection) (s : Socket)
    (junk : list Z) (n : Notification) (token : list Z) :
  socket c = Some s ->
  backpressured s = false ->
  device_token n = Some token ->
  Z.of_nat (length (message n)) <= 255 ->
  0 <= currentId c <= 0xffffffff ->
  (enhanced (options c) = true -> 0 <= expiry n <= 0xffffffff) ->
  0xffff < Z.of_nat (length token) ->
  sendNotification_then Errors junk n c =
  (Throws AssertionError, after_send c n, [EvSetUid n (currentId c)]).
Proof.
  intros Hs Hbp Htok Hmsg Hid Hexp Hlong.
  enter_send Hbp Htok.
  destruct (uid + 1 >? 4294967295) eqn:Hwrap; simpl;
    destruct (enhanced o) eqn:Henh; simpl;
    begin_fill; (rewrite set_filled by offsets); simpl.
  1, 3: specialize (Hexp eq_refl);
        (rewrite writeUInt32BE_filled by offsets); simpl;
        (rewrite writeUInt32BE_filled by offsets); simpl;
        rewrite !cacheNotification_run; simpl.
  all: (rewrite writeUInt16BE_rejects by lia); reflexivity.
Qed.

(** A send that goes through, with the expiry checked only where it is
    written. *)
Lemma sendNotification_then_written (c : Connection) (s : Socket)
    (junk : list Z) (n : Notification) (token : list Z) :
  socket c = Some s ->
  backpressured s = false ->
  device_token n = Some token ->
  Z.of_nat (length (message n)) <= 255 ->
  Z.of_nat (length token) <= 0xffff ->
  (enhanced (options c) = true -> 0 <= expiry n <= 0xffffffff) ->
  0 <= currentId c <= 0xffffffff ->
  sendNotification_then Errors junk n c =
  (Normal tt, after_send c n,
   [EvSetUid n (currentId c); EvWrite (frame_of c (currentId c) n token)]).
Proof.
  intros Hs Hbp Htok Hmsg Htoklen Hexp Hid.
  destruct (enhanced (options c)) eqn:Henh.
  { apply (sendNotification_then_sends Errors c s); auto. }
  clear Hexp. enter_send Hbp Htok.
  destruct (uid + 1 >? 4294967295) eqn:Hwrap; simpl; rewrite Henh; simpl;
    begin_fill; (rewrite set_filled by offsets); simpl;
    (rewrite writeUInt16BE_filled by offsets); simpl;
    (rewrite copy_filled by offsets); simpl;
    (rewrite writeUInt16BE_filled by offsets); simpl;
    (rewrite copy_filled by offsets); simpl;
    (rewrite filled_all by offsets);
    unfold simple_frame; simpl; by rewrite <- !app_assoc.
Qed.

(** Whatever it is given, the callback writes nothing, or the frame of a
    notification that has a token and a payload of at most 255 bytes. *)
Lemma sendNotification_then_writes (c : Connection) (junk : list Z)
    (n : Notification) :
  0 <= currentId c <= 0xffffffff ->
  let r := sendNotification_then Errors junk n c in
  writes (effects r) = [] \/
  exists token,
    device_token n = Some token /\
    Z.of_nat (length (message n)) <= 255 /\
    Z.of_nat (length token) <= 0xffff /\
    writes (effects r) = [frame_of c (currentId c) n token].
Proof.
  intros Hid. cbv zeta.
  destruct (socket c) as [s|] eqn:Hs.
  2: { rewrite sendNotification_then_no_socket by done. by left. }
  destruct (backpressured s) eqn:Hbp.
  { rewrite (sendNotification_then_buffers Errors c s) by done. by left. }
  destruct (device n) as [[[token|]]|] eqn:Hdev.
  3: { rewrite (sendNotification_then_no_device Errors c s) by done. by left. }
  2: { rewrite (sendNotification_then_no_token Errors c s) by done. left.
       by destruct (errorCallback (options c)). }
  assert (device_token n = Some token) as Htok
    by (unfold device_token; by rewrite Hdev).
  destruct (Z.gtb_spec (Z.of_nat (length (message n))) 255) as [Hlen|Hlen].
  { rewrite (sendNotification_then_too_large Errors c s junk n token) by done.
    left. by destruct (errorCallback (options c)). }
  destruct (enhanced (options c)) eqn:Henh.
  - destruct (decide (0 <= expiry n <= 0xffffffff)) as [Hexp|Hexp].
    2: { rewrite (sendNotification_then_bad_expiry c s junk n token) by done.
         by left. }
    destruct (decide (Z.of_nat (length token) <= 0xffff)) as [Htl|Htl].
    2: { rewrite (sendNotification_then_long_token c s junk n token)
           by (try done; lia). by left. }
    rewrite (sendNotification_then_written c s junk n token) by done.
    right. exists token. by repeat split.
  - destruct (decide (Z.of_nat (length token) <= 0xffff)) as [Htl|Htl].
    2: { rewrite (sendNotification_then_long_token c s junk n token)
           by (try done; try lia; congruence). by left. }
    rewrite (sendNotification_then_written c s junk n token)
      by (try done; congruence).
    right. exists token. by repeat split.
Qed.

(** Whatever it is given, the callback arms no timer. *)
Lemma sendNotification_then_no_timer (c : Connection) (junk : list Z)
    (n : Notification) :
  timers_armed (effects (sendNotification_then Errors junk n c)) = 0%nat.
Proof.
  destruct (socket c) as [s|] eqn:Hs.
  2: { by rewrite sendNotification_then_no_socket. }
  destruct (backpressured s) eqn:Hbp.
  { by rewrite (sendNotification_then_buffers Errors c s). }
  destruct (device n) as [[[token|]]|] eqn:Hdev.
  3: { by rewrite (sendNotification_then_no_device Errors c s). }
  2: { rewrite (sendNotification_then_no_token Errors c s) by done.
       by destruct (errorCallback (options c)). }
  assert (device_token n = Some token) as Htok
    by (unfold device_token; by rewrite Hdev).
  destruct (Z.gtb_spec (Z.of_nat (length (message n))) 255) as [Hlen|Hlen].
  { rewrite (sendNotification_then_too_large Errors c s junk n token) by done.
    by destruct (errorCallback (options c)). }
  unfold sendNotification_then.
  destruct c as [o uid cached buf so d t q]. simpl in *. subst so.
  js_simpl. rewrite Hbp, Hdev. simpl.
  destruct (Z.gtb_spec (Z.of_nat (length (message n))) 255) as [?|_]; [lia|].
  simpl.
  destruct (uid + 1 >? 4294967295) eqn:Hwrap; simpl;
    destruct (enhanced o) eqn:Henh; simpl;
    repeat first
      [ rewrite cacheNotification_run
      | match goal with
        | |- context [match ?x with Some _ => _ | None => _ end] =>
            destruct x; simpl
        end ];
    simpl; auto.
Qed.

(** X8. In the enhanced variant a notification whose expiry is not a
    number of 32 bits uses up an identifier and is lost: the write of the
    expiry raises an exception after [_uid] has been set, and nothing is
    cached, buffered, written or reported. *)
Theorem bad_expiry_uses_up_an_identifier (c : Connection) (s : Socket)
    (junk : list Z) (n : Notification) (token : list Z) :
  socket c = Some s ->
  backpressured s = false ->
  device_token n = Some token ->
  Z.of_nat (length (message n)) <= 255 ->
  0 <= currentId c <= 0xffffffff ->
  enhanced (options c) = true ->
  ~ 0 <= expiry n <= 0xffffffff ->
  let r := sendNotification_then Errors junk n c in
  result r = Throws AssertionError /\
  assigned_uids (effects r) = [currentId c] /\
  currentId (final r) = next_id (currentId c) /\
  writes (effects r) = [] /\
  callbacks (effects r) = [] /\
  cachedNotifications (final r) = cachedNotifications c /\
  notificationBuffer (final r) = notificationBuffer c.
Proof.
  intros Hs Hbp Htok Hmsg Hid Henh Hexp. cbv zeta.
  rewrite (sendNotification_then_bad_expiry c s junk n token) by done.
  by repeat split.
Qed.


End SendEdges.

(** ** More on runs *)

Section Runs.

Variable Errors : ErrorsTable.

Lemma run_app (ops1 ops2 : list op) (c : Connection) :
  run Errors (ops1 ++ ops2) c =
  ((run Errors ops2 (run Errors ops1 c).1).1,
   (run Errors ops1 c).2 ++ (run Errors ops2 (run Errors ops1 c).1).2).
Proof.
  revert c. induction ops1 as [|o ops1 IH]; intros c; simpl.
  - by destruct (run Errors ops2 c).
  - rewrite IH. simpl. by rewrite app_assoc.
Qed.

Lemma writes_app (es1 es2 : list event) :
  writes (es1 ++ es2) = writes es1 ++ writes es2.
Proof.
  induction es1 as [|e es1 IH]; [done|]. destruct e; simpl; by rewrite ?IH.
Qed.

Lemma callbacks_app (es1 es2 : list event) :
  callbacks (es1 ++ es2) = callbacks es1 ++ callbacks es2.
Proof.
  induction es1 as [|e es1 IH]; [done|]. destruct e; simpl; by rewrite ?IH.
Qed.

Lemma attempts_app (es1 es2 : list event) :
  attempts (es1 ++ es2) = (attempts es1 + attempts es2)%nat.
Proof.
  induction es1 as [|e es1 IH]; [done|]. destruct e; simpl; by rewrite ?IH.
Qed.

Ltac split_cases :=
  match goal with
  | |- context [match ?x with _ => _ end] =>
      lazymatch x with
      | context [match _ with _ => _ end] => fail
      | _ => destruct x eqn:?; simpl in *
      end
  end.

Lemma readUInt32BE_long (data : Buffer.t) :
  (6 <= length data)%nat ->
  exists status identifier,
    data !! 1%nat = Some status /\ Buffer.readUInt32BE 2 data = Some identifier.
Proof.
  intros Hlen.
  destruct data as [|b0 [|b1 [|b2 [|b3 [|b4 [|b5 data]]]]]];
    simpl in Hlen; try lia.
  eexists _, _. split; reflexivity.
Qed.

(** The handler of 'data' writes nothing and starts no attempt. *)
Lemma handleTransmissionError_quiet (data : Buffer.t) (c : Connection) :
  let r := handleTransmissionError Errors data c in
  writes (effects r) = [] /\ attempts (effects r) = 0%nat.
Proof.
  cbv zeta.
  destruct (data !! 0%nat) as [command|] eqn:H0.
  2: { unfold handleTransmissionError. by rewrite H0. }
  destruct (Z.eqb_spec command 8) as [->|Hne].
  2: { unfold handleTransmissionError. rewrite H0.
       apply Z.eqb_neq in Hne. by rewrite Hne. }
  destruct (enhanced (options c)) eqn:Henh.
  2: { unfold handleTransmissionError. rewrite H0. js_simpl. by rewrite Henh. }
  destruct (Buffer.readUInt32BE 2 data) as [identifier|] eqn:Hid.
  2: { unfold handleTransmissionError. rewrite H0, Hid. js_simpl.
       by rewrite Henh. }
  destruct (data !! 1%nat) as [status|] eqn:H1.
  2: { unfold handleTransmissionError. rewrite H0, H1, Hid. js_simpl.
       by rewrite Henh. }
  rewrite (handleTransmissionError_run Errors data c status identifier) by done.
  destruct (scan identifier (cachedNotifications c) [] None)
    as [[[found m] cached] temp].
  unfold effects. simpl. rewrite writes_app, attempts_app.
  by destruct (errorCallback (options c)), found, (is_defined (socket c)).
Qed.

(** Only the callback of [sendNotification] writes to the socket. *)
Lemma exec_writes (o : op) (c : Connection) :
  0 <= currentId c <= 0xffffffff ->
  writes (effects (exec Errors o c)) = [] \/
  exists n token,
    device_token n = Some token /\
    Z.of_nat (length (message n)) <= 255 /\
    Z.of_nat (length token) <= 0xffff /\
    writes (effects (exec Errors o c)) = [frame_of c (currentId c) n token].
Proof.
  intros Hid.
  destruct o as [n|junk|s| | |data| | | | | |size w].
  - left. unfold exec, sendNotification, connect, q_then.
    destruct c as [o uid cached buf so dc t q]. js_simpl.
    repeat split_cases; done.
  - destruct (q_scheduled c) as [|n rest] eqn:Hq.
    { left. unfold exec. js_simpl. by rewrite Hq. }
    rewrite (exec_QThen Errors junk c n rest Hq).
    destruct (sendNotification_then_writes Errors (with_q_scheduled rest c)
                junk n Hid) as [Hw | (token & ? & ? & ? & Hw)].
    + by left.
    + right. exists n, token. by repeat split.
  - left. unfold exec, initialized, isResolved.
    destruct c as [o uid cached buf so dc t q]. js_simpl.
    repeat split_cases; done.
  - left. unfold exec, q_reject.
    destruct c as [o uid cached buf so dc t q]. js_simpl.
    repeat split_cases; done.
  - left. unfold exec, listening, tlsConnected, socketDrained, sendNotification,
      connect, q_then, q_resolve, q_reject.
    destruct c as [o uid cached buf so dc t q]. js_simpl.
    repeat split_cases; done.
  - left. rewrite exec_SocketData.
    destruct (is_defined (socket c)); [|done].
    apply handleTransmissionError_quiet.
  - left. unfold exec, listening, socketDrained, sendNotification, connect, q_then.
    destruct c as [o uid cached buf so dc t q]. js_simpl.
    repeat split_cases; done.
  - left. unfold exec, listening, destroyConnection.
    destruct c as [o uid cached buf so dc t q]. js_simpl.
    repeat split_cases; done.
  - left. unfold exec, listening, restartConnection, connect, q_reject, isResolved.
    destruct c as [o uid cached buf so dc t q]. js_simpl.
    repeat split_cases; done.
  - left. unfold exec, listening, restartConnection, connect, q_reject, isResolved.
    destruct c as [o uid cached buf so dc t q]. js_simpl.
    repeat split_cases; done.
  - left. unfold exec, destroyConnection.
    destruct c as [o uid cached buf so dc t q]. js_simpl.
    repeat split_cases; done.
  - left. unfold exec.
    destruct c as [o uid cached buf so dc t q]. js_simpl.
    repeat split_cases; done.
Qed.

(** X10. Nothing but well-formed frames reaches the socket.  Every buffer
    written in a run of a connection is the frame, in the variant of the
    connection, of a notification that has a token of at most 65535 bytes
    and a payload of at most 255 bytes, with an identifier of 32 bits; it
    starts with the byte 1 in the enhanced variant and 0 in the simple
    one. *)
Theorem only_frames_are_written (o : Options) (ops : list op) (data : list Z) :
  data ∈ writes (run Errors ops (new_Connection o)).2 ->
  (exists uid n token,
     device_token n = Some token /\
     Z.of_nat (length token) <= 0xffff /\
     Z.of_nat (length (message n)) <= 255 /\
     0 <= uid <= 0xffffffff /\
     data = if enhanced o
            then enhanced_frame uid (expiry n) token (message n)
            else simple_frame token (message n)) /\
  head data = Some (if enhanced o then 1 else 0).
Proof.
  intros Hin.
  assert (forall c, consistent c -> options c = o ->
            data ∈ writes (run Errors ops c).2 ->
            exists uid n token,
              device_token n = Some token /\
              Z.of_nat (length token) <= 0xffff /\
              Z.of_nat (length (message n)) <= 255 /\
              0 <= uid <= 0xffffffff /\
              data = if enhanced o
                     then enhanced_frame uid (expiry n) token (message n)
                     else simple_frame token (message n)) as Hgen.
  { clear Hin. induction ops as [|e ops IH]; intros c Hc Hopt Hin.
    { by apply elem_of_nil in Hin. }
    cbn [run snd] in Hin. rewrite writes_app in Hin.
    apply elem_of_app in Hin as [Hin|Hin].
    - destruct (exec_writes e c (currentId_range c Hc))
        as [Hw | (n & token & Htok & Hlen & Htl & Hw)];
        rewrite Hw in Hin; [by apply elem_of_nil in Hin|].
      apply list_elem_of_singleton in Hin. subst data.
      exists (currentId c), n, token.
      repeat split; try done; try apply (currentId_range c Hc).
      unfold frame_of. by rewrite Hopt.
    - destruct (exec_step Errors e c Hc) as [Hc' [Hopt' _]].
      apply (IH _ Hc'); [congruence|done]. }
  destruct (Hgen _ (new_Connection_consistent o) eq_refl Hin)
    as (uid & n & token & Htok & Htl & Hlen & Huid & ->).
  split; [by exists uid, n, token|].
  by destruct (enhanced o).
Qed.

(** X11. A connection of the simple variant never caches anything, and it
    ignores whatever the socket delivers: data changes nothing, invokes no
    callback and does not close the socket. *)
Theorem simple_variant_ignores_data (o : Options) (ops : list op)
    (data : Buffer.t) :
  enhanced o = false ->
  let c := (run Errors ops (new_Connection o)).1 in
  cachedNotifications c = [] /\
  exec Errors (SocketData data) c = (Normal tt, c, []).
Proof.
  intros Henh. cbv zeta.
  destruct (run_consistent Errors ops (new_Connection o)
              (new_Connection_consistent o)) as [Hc Hopt].
  split.
  - apply (simple_no_cache _ Hc). by rewrite Hopt.
  - rewrite exec_SocketData. destruct (is_defined _); [|done].
    unfold handleTransmissionError.
    destruct (data !! 0%nat) as [command|]; [|done].
    destruct (command =? 8); [|done].
    js_simpl. by rewrite Hopt, Henh.
Qed.

(** X12. In every state a run can reach, the listeners of the socket and
    the other entry points end without an exception, but for two: the
    callback of [sendNotification], and the handler of 'data' when it is
    given a frame of fewer than six bytes. *)
Theorem listeners_do_not_throw (o : Options) (ops : list op) (e : op) :
  let c := (run Errors ops (new_Connection o)).1 in
  (forall junk, e <> QThen junk) ->
  (forall data, e = SocketData data -> (6 <= length data)%nat) ->
  result (exec Errors e c) = Normal tt.
Proof.
  cbv zeta. intros Hq Hdata.
  destruct (run_consistent Errors ops (new_Connection o)
              (new_Connection_consistent o)) as [[_ _ _ Hsock] _].
  revert Hsock. generalize (run Errors ops (new_Connection o)).1. intros c Hsock.
  destruct e as [n|junk|s| | |data| | | | | |size w].
  - unfold exec, sendNotification, connect, q_then.
    destruct c as [o' uid cached buf so dc t q]. js_simpl.
    repeat split_cases; done.
  - by destruct (Hq junk).
  - unfold exec, initialized, isResolved.
    destruct c as [o' uid cached buf so dc t q]. js_simpl.
    repeat split_cases; done.
  - unfold exec, q_reject.
    destruct c as [o' uid cached buf so dc t q]. js_simpl.
    repeat split_cases; done.
  - unfold exec, listening, tlsConnected, socketDrained, sendNotification,
      connect, q_then, q_resolve, q_reject.
    destruct c as [o' uid cached buf so dc t q]. js_simpl.
    destruct so as [s|], dc as [d|]; simpl in *;
      try done; try (by specialize (Hsock eq_refl)).
    repeat split_cases; done.
  - rewrite exec_SocketData. destruct (is_defined (socket c)); [|done].
    destruct (readUInt32BE_long data (Hdata data eq_refl))
      as (status & identifier & H1 & Hid).
    destruct (data !! 0%nat) as [command|] eqn:H0.
    2: { unfold handleTransmissionError. by rewrite H0. }
    destruct (Z.eqb_spec command 8) as [->|Hne].
    2: { unfold handleTransmissionError. rewrite H0.
         apply Z.eqb_neq in Hne. by rewrite Hne. }
    destruct (enhanced (options c)) eqn:Henh.
    2: { unfold handleTransmissionError. rewrite H0. js_simpl. by rewrite Henh. }
    rewrite (handleTransmissionError_run Errors data c status identifier) by done.
    by destruct (scan identifier (cachedNotifications c) [] None)
      as [[[found m] cached] temp].
  - unfold exec, listening, socketDrained, sendNotification, connect, q_then.
    destruct c as [o' uid cached buf so dc t q]. js_simpl.
    destruct so as [s|], dc as [d|]; simpl in *;
      try done; try (by specialize (Hsock eq_refl)).
    repeat split_cases; done.
  - unfold exec, listening, destroyConnection.
    destruct c as [o' uid cached buf so dc t q]. js_simpl.
    repeat split_cases; done.
  - unfold exec, listening, restartConnection, connect, q_reject, isResolved.
    destruct c as [o' uid cached buf so dc t q]. js_simpl.
    destruct so as [s|], dc as [d|]; simpl in *;
      try done; try (by specialize (Hsock eq_refl)).
    repeat split_cases; done.
  - unfold exec, listening, restartConnection, connect, q_reject, isResolved.
    destruct c as [o' uid cached buf so dc t q]. js_simpl.
    destruct so as [s|], dc as [d|]; simpl in *;
      try done; try (by specialize (Hsock eq_refl)).
    repeat split_cases; done.
  - unfold exec, destroyConnection.
    destruct c as [o' uid cached buf so dc t q]. js_simpl.
    repeat split_cases; done.
  - unfold exec.
    destruct c as [o' uid cached buf so dc t q]. js_simpl.
    repeat split_cases; done.
Qed.

(** A step of a connection that has failed for good. *)
Lemma exec_failed_for_good (e : op) (c : Connection) :
  failed_for_good c ->
  effects (exec Errors e c) = [] /\
  exists scheduled,
    final (exec Errors e c) = with_q_scheduled scheduled c.
Proof.
  intros [Hd Hs].
  destruct e as [n|junk|s| | |data| | | | | |size w].
  2: { destruct (q_scheduled c) as [|n rest] eqn:Hq.
       - unfold exec. js_simpl. rewrite Hq. split; [done|].
         exists (q_scheduled c). by destruct c.
       - rewrite (exec_QThen Errors junk c n rest Hq).
         rewrite sendNotification_then_no_socket by done. eauto. }
  all: unfold exec, listening, sendNotification, connect, q_then, q_reject,
         destroyConnection, isResolved;
       destruct c as [o uid cached buf so dc t q]; simpl in *; subst;
       js_simpl; (split; [done|]); by exists q.
Qed.

(** X13. When the credentials cannot be loaded the connection fails for
    good.  The promise of the connection is rejected and never replaced:
    whatever happens afterwards, no attempt to connect is started, nothing
    is written and nothing is reported, and every notification submitted is
    neither buffered nor cached. *)
Theorem credential_failure_is_permanent (c0 : Connection) (d0 : Deferred)
    (ops : list op) :
  deferredConnection c0 = Some d0 ->
  d_state d0 = Pending ->
  socket c0 = None ->
  let c := final (exec Errors InitializeFailed c0) in
  let r := run Errors ops c in
  failed_for_good c /\
  failed_for_good r.1 /\
  r.2 = [] /\
  cachedNotifications r.1 = cachedNotifications c0 /\
  notificationBuffer r.1 = notificationBuffer c0.
Proof.
  intros Hd Hpend Hs. cbv zeta.
  set (c := final (exec Errors InitializeFailed c0)).
  assert (failed_for_good c /\
          cachedNotifications c = cachedNotifications c0 /\
          notificationBuffer c = notificationBuffer c0) as (Hc & <- & <-).
  { subst c. unfold exec, q_reject, failed_for_good.
    destruct c0 as [o uid cached buf so dc t q]. simpl in *. subst.
    destruct d0 as [st th]. simpl in *. subst. js_simpl. by repeat split. }
  split; [done|]. clearbody c. clear Hd Hpend Hs.
  revert c Hc. induction ops as [|e ops IH]; intros c Hc; [done|].
  cbn [run fst snd].
  destruct (exec_failed_for_good e c Hc) as (-> & scheduled & ->).
  assert (failed_for_good (with_q_scheduled scheduled c)) as Hc'
    by (destruct Hc; by split).
  destruct (IH _ Hc') as (? & -> & -> & ->). by destruct c.
Qed.

End Runs.

(** ** The order of transmission *)

Section Order.

Variable Errors : ErrorsTable.

Lemma after_send_fields (c : Connection) (n : Notification) :
  socket (after_send c n) = socket c /\
  deferredConnection (after_send c n) = deferredConnection c /\
  q_scheduled (after_send c n) = q_scheduled c /\
  notificationBuffer (after_send c n) = notificationBuffer c /\
  options (after_send c n) = options c /\
  currentId (after_send c n) = next_id (currentId c).
Proof.
  unfold after_send. destruct (enhanced (options c)); [|done].
  by rewrite cacheNotification_run.
Qed.

Lemma sent_frames_options (c c' : Connection) (uid : Z)
    (ns : list Notification) :
  options c = options c' -> sent_frames c uid ns = sent_frames c' uid ns.
Proof.
  intros Hopt. revert uid. induction ns as [|n ns IH]; intros uid; [done|].
  simpl. rewrite IH. unfold frame_of. by rewrite Hopt.
Qed.

(** One callback of [sendNotification] for a notification that can be
    written, on a socket that takes the write. *)
Lemma exec_QThen_sends (junk : list Z) (c : Connection) (s : Socket)
    (n : Notification) (rest : list Notification) :
  q_scheduled c = n :: rest ->
  socket c = Some s ->
  backpressured s = false ->
  sendable n ->
  0 <= currentId c <= 0xffffffff ->
  exec Errors (QThen junk) c =
  (Normal tt, after_send (with_q_scheduled rest c) n,
   [EvSetUid n (currentId c);
    EvWrite (frame_of c (currentId c) n (default [] (device_token n)))]).
Proof.
  intros Hq Hs Hbp (token & Htok & Htl & Hlen & Hexp) Hid.
  rewrite (exec_QThen Errors junk c n rest Hq).
  rewrite (sendNotification_then_sends Errors _ s junk n token) by done.
  by rewrite Htok.
Qed.

Lemma run_cons (e : op) (ops : list op) (c : Connection) :
  run Errors (e :: ops) c =
  ((run Errors ops (final (exec Errors e c))).1,
   effects (exec Errors e c) ++ (run Errors ops (final (exec Errors e c))).2).
Proof. cbn [run]. exact eq_refl. Qed.

Lemma run_thens (ns : list Notification) :
  forall (junks : list (list Z)) (c : Connection) (s : Socket)
         (rest : list Notification),
    length junks = length ns ->
    socket c = Some s ->
    backpressured s = false ->
    q_scheduled c = ns ++ rest ->
    Forall sendable ns ->
    0 <= currentId c <= 0xffffffff ->
    let r := run Errors (map QThen junks) c in
    writes r.2 = sent_frames c (currentId c) ns /\
    callbacks r.2 = [] /\
    attempts r.2 = 0%nat /\
    q_scheduled r.1 = rest /\
    notificationBuffer r.1 = notificationBuffer c /\
    socket r.1 = Some s /\
    deferredConnection r.1 = deferredConnection c.
Proof.
  induction ns as [|n ns IH]; intros junks c s rest Hlen Hs Hbp Hq Hall Hid.
  { destruct junks; [|done]. simpl. by repeat split. }
  destruct junks as [|junk junks]; [done|].
  inversion Hall as [|? ? Hn Hns]; subst. cbv zeta.
  cbn [map run fst snd].
  rewrite (exec_QThen_sends junk c s n (ns ++ rest)) by done.
  unfold final, effects. cbn [fst snd].
  destruct (after_send_fields (with_q_scheduled (ns ++ rest) c) n)
    as (Hs' & Hd' & Hq' & Hb' & Ho' & Hi').
  destruct (IH junks (after_send (with_q_scheduled (ns ++ rest) c) n) s rest)
    as (Hw & Hcb & Hatt & Hqf & Hbf & Hsf & Hdf).
  - simpl in Hlen. lia.
  - by rewrite Hs'.
  - done.
  - by rewrite Hq'.
  - done.
  - rewrite Hi'. by apply next_id_range.
  - rewrite writes_app, callbacks_app, attempts_app. simpl.
    rewrite Hw, Hcb, Hatt, Hqf, Hbf, Hsf, Hdf, Hi', Hb', Hd'. simpl.
    rewrite (sent_frames_options _ c) by done.
    by repeat split.
Qed.

Lemma with_deferredConnection_twice (v v' : option Deferred) (c : Connection) :
  with_deferredConnection v (with_deferredConnection v' c)
  = with_deferredConnection v c.
Proof. done. Qed.

(** Calls of [sendNotification] while the connection is being set up only
    line up behind the promise of the connection. *)
Lemma run_calls_pending (ns : list Notification) :
  forall (c : Connection) (th : list Notification),
    deferredConnection c = Some {| d_state := Pending; d_thens := th |} ->
    run Errors (map CallSendNotification ns) c =
    (with_deferredConnection
       (Some {| d_state := Pending; d_thens := th ++ ns |}) c, []).
Proof.
  induction ns as [|n ns IH]; intros c th Hd.
  { simpl. rewrite app_nil_r, <- Hd. by destruct c. }
  cbn [map run].
  assert (exec Errors (CallSendNotification n) c =
          (Normal tt,
           with_deferredConnection
             (Some {| d_state := Pending; d_thens := th ++ [n] |}) c, []))
    as ->.
  { unfold exec, sendNotification, connect, q_then.
    destruct c as [o uid cached buf so dc t q]. simpl in *. subst.
    by js_simpl. }
  unfold final, effects. cbn [fst snd].
  rewrite (IH _ (th ++ [n])) by done.
  by rewrite with_deferredConnection_twice, <- app_assoc.
Qed.

Lemma run_calls_new (o : Options) (n : Notification) (ns : list Notification) :
  run Errors (map CallSendNotification (n :: ns)) (new_Connection o) =
  (with_deferredConnection
     (Some {| d_state := Pending; d_thens := n :: ns |}) (new_Connection o),
   [EvInitialize]).
Proof.
  cbn [map run].
  assert (exec Errors (CallSendNotification n) (new_Connection o) =
          (Normal tt,
           with_deferredConnection
             (Some {| d_state := Pending; d_thens := [n] |}) (new_Connection o),
           [EvInitialize])) as -> by done.
  unfold final, effects. cbn [fst snd].
  by rewrite (run_calls_pending ns _ [n]).
Qed.

(** X14. Notifications submitted before the connection is up are written
    in the order of their submission.  The first call starts the only
    attempt to connect; once the stream is connected and authorized, the
    callbacks run in order, and on a socket that takes each write the
    frames written are those of the notifications, one after the other,
    with the identifiers from 0 on.  Nothing is reported, buffered or left
    waiting. *)
Theorem submissions_are_sent_in_order (o : Options) (s : Socket)
    (n : Notification) (ns : list Notification) (junks : list (list Z)) :
  Forall sendable (n :: ns) ->
  length junks = length (n :: ns) ->
  authorized s = true ->
  backpressured s = false ->
  let r := run Errors
             (map CallSendNotification (n :: ns)
              ++ [InitializeDone s; TlsConnected] ++ map QThen junks)
             (new_Connection o) in
  writes r.2 = sent_frames (new_Connection o) 0 (n :: ns) /\
  callbacks r.2 = [] /\
  attempts r.2 = 1%nat /\
  q_scheduled r.1 = [] /\
  notificationBuffer r.1 = [] /\
  deferredConnection r.1 = Some {| d_state := Fulfilled; d_thens := [] |}.
Proof.
  intros Hall Hlen Hauth Hbp. cbv zeta.
  rewrite run_app, run_calls_new. cbn [fst snd].
  rewrite run_app. cbn [fst snd].
  set (connected_c :=
         with_q_scheduled (n :: ns)
           (with_deferredConnection
              (Some {| d_state := Fulfilled; d_thens := [] |})
              (with_connectionTimeout (opt_connectionTimeout o >? 0)
                 (with_socket (Some s) (new_Connection o))))).
  assert (run Errors [InitializeDone s; TlsConnected]
            (with_deferredConnection
               (Some {| d_state := Pending; d_thens := n :: ns |})
               (new_Connection o)) =
          (connected_c,
           EvTlsConnect ::
           (if opt_connectionTimeout o >? 0 then [EvSetTimeout] else [])))
    as ->.
  { subst connected_c.
    unfold run, exec, listening, initialized, tlsConnected, socketDrained,
      q_resolve, isResolved.
    js_simpl. rewrite Hauth. simpl.
    destruct (opt_connectionTimeout o >? 0); js_simpl; rewrite ?Hbp;
      js_simpl; done. }
  cbn [fst snd].
  destruct (run_thens (n :: ns) junks connected_c s []) as
    (Hw & Hcb & Hatt & Hq & Hb & _ & Hd); try done.
  { by rewrite app_nil_r. }
  rewrite !writes_app, !callbacks_app, !attempts_app.
  rewrite Hw, Hcb, Hatt, Hq, Hb, Hd.
  rewrite (sent_frames_options connected_c (new_Connection o)) by done.
  destruct (opt_connectionTimeout o >? 0); by repeat split.
Qed.

(** X15. When the peer is not authorized the attempt is given up and the
    notifications that waited for it are lost: they are neither written nor
    buffered, and nothing is reported.  Until the stream ends the same
    happens to every notification submitted. *)
Theorem unauthorized_peer_loses_submissions (o : Options) (s : Socket)
    (n : Notification) (ns ms : list Notification) (junks : list (list Z)) :
  authorized s = false ->
  run Errors
    (map CallSendNotification (n :: ns)
     ++ [InitializeDone s; TlsConnected]
     ++ map CallSendNotification ms ++ map QThen junks)
    (new_Connection o) =
  (with_deferredConnection (Some {| d_state := Rejected; d_thens := [] |})
     (with_socket (Some s) (new_Connection o)),
   [EvInitialize; EvTlsConnect]).
Proof.
  intros Hauth.
  rewrite run_app, run_calls_new. cbn [fst snd].
  rewrite run_app. cbn [fst snd].
  set (c := with_deferredConnection
              (Some {| d_state := Rejected; d_thens := [] |})
              (with_socket (Some s) (new_Connection o))).
  assert (run Errors [InitializeDone s; TlsConnected]
            (with_deferredConnection
               (Some {| d_state := Pending; d_thens := n :: ns |})
               (new_Connection o)) = (c, [EvTlsConnect])) as ->.
  { subst c.
    unfold run, exec, listening, initialized, tlsConnected, q_reject, isResolved.
    js_simpl. by rewrite Hauth. }
  cbn [fst snd]. rewrite run_app.
  assert (forall l, run Errors (map CallSendNotification l) c = (c, [])) as ->.
  { induction l as [|m l IH]; [done|]. cbn [map run].
    assert (exec Errors (CallSendNotification m) c = (Normal tt, c, []))
      as -> by done.
    unfold final, effects. cbn [fst snd]. by rewrite IH. }
  cbn [fst snd].
  assert (forall l, run Errors (map QThen l) c = (c, [])) as ->.
  { induction l as [|j l IH]; [done|]. cbn [map run].
    assert (exec Errors (QThen j) c = (Normal tt, c, [])) as -> by done.
    unfold final, effects. cbn [fst snd]. by rewrite IH. }
  done.
Qed.

(** A 'drain' on a connected socket that takes the write: the first
    notification of the buffer is handed to [sendNotification]. *)
Lemma exec_SocketDrain_ready (c : Connection) (s : Socket) (d : Deferred)
    (n : Notification) (rest : list Notification) :
  socket c = Some s ->
  backpressured s = false ->
  deferredConnection c = Some d ->
  d_state d = Fulfilled ->
  notificationBuffer c = n :: rest ->
  exec Errors SocketDrain c =
  (Normal tt,
   with_q_scheduled (q_scheduled c ++ [n]) (with_notificationBuffer rest c), []).
Proof.
  intros Hs Hbp Hd Hful Hbuf.
  unfold exec, listening, socketDrained, sendNotification, connect, q_then.
  destruct c as [o uid cached buf so dc t q]. simpl in *. subst.
  destruct d as [st th]. simpl in *. subst. js_simpl.
  by rewrite Hbp.
Qed.

Lemma run_drains (ns : list Notification) :
  forall (junks : list (list Z)) (c : Connection) (s : Socket) (d : Deferred)
         (rest : list Notification),
    length junks = length ns ->
    socket c = Some s ->
    backpressured s = false ->
    deferredConnection c = Some d ->
    d_state d = Fulfilled ->
    q_scheduled c = [] ->
    notificationBuffer c = ns ++ rest ->
    Forall sendable ns ->
    0 <= currentId c <= 0xffffffff ->
    let r := run Errors (flat_map (fun j => [SocketDrain; QThen j]) junks) c in
    writes r.2 = sent_frames c (currentId c) ns /\
    callbacks r.2 = [] /\
    attempts r.2 = 0%nat /\
    q_scheduled r.1 = [] /\
    notificationBuffer r.1 = rest /\
    socket r.1 = Some s.
Proof.
  induction ns as [|n ns IH];
    intros junks c s d rest Hlen Hs Hbp Hd Hful Hq Hbuf Hall Hid.
  { destruct junks; [|done]. simpl. by repeat split. }
  destruct junks as [|junk junks]; [done|].
  inversion Hall as [|? ? Hn Hns]; subst. cbv zeta.
  cbn [flat_map app]. rewrite run_cons.
  rewrite (exec_SocketDrain_ready c s d n (ns ++ rest)) by done.
  unfold final, effects. cbn [fst snd].
  rewrite Hq. cbn [app].
  set (c1 := with_q_scheduled [n] (with_notificationBuffer (ns ++ rest) c)).
  rewrite run_cons.
  rewrite (exec_QThen_sends junk c1 s n []) by done.
  unfold final, effects. cbn [fst snd].
  destruct (after_send_fields (with_q_scheduled [] c1) n)
    as (Hs' & Hd' & Hq' & Hb' & Ho' & Hi').
  destruct (IH junks (after_send (with_q_scheduled [] c1) n) s d rest)
    as (Hw & Hcb & Hatt & Hqf & Hbf & Hsf); try done.
  - simpl in Hlen. lia.
  - by rewrite Hs'.
  - by rewrite Hd'.
  - rewrite Hi'. by apply next_id_range.
  - rewrite !writes_app, !callbacks_app, !attempts_app. simpl.
    rewrite Hw, Hcb, Hatt, Hqf, Hbf, Hsf, Hi'. simpl.
    rewrite (sent_frames_options _ c) by done.
    by repeat split.
Qed.

(** X16. The buffer is emptied in order.  On a connected socket that
    takes the writes, each 'drain' hands the first notification of the
    buffer to [sendNotification]; when the buffer holds notifications that
    can be written, as many drains write their frames in the order of the
    buffer, with the identifiers from [currentId] on, and leave the buffer
    empty. *)
Theorem buffer_is_drained_in_order (c : Connection) (s : Socket)
    (d : Deferred) (junks : list (list Z)) :
  socket c = Some s ->
  backpressured s = false ->
  deferredConnection c = Some d ->
  d_state d = Fulfilled ->
  q_scheduled c = [] ->
  Forall sendable (notificationBuffer c) ->
  length junks = length (notificationBuffer c) ->
  0 <= currentId c <= 0xffffffff ->
  let r := run Errors (flat_map (fun j => [SocketDrain; QThen j]) junks) c in
  writes r.2 = sent_frames c (currentId c) (notificationBuffer c) /\
  callbacks r.2 = [] /\
  attempts r.2 = 0%nat /\
  notificationBuffer r.1 = [] /\
  q_scheduled r.1 = [].
Proof.
  intros Hs Hbp Hd Hful Hq Hall Hlen Hid. cbv zeta.
  destruct (run_drains (notificationBuffer c) junks c s d [])
    as (Hw & Hcb & Hatt & Hqf & Hbf & _); try done.
  by rewrite app_nil_r.
Qed.

End Order.

(** ** Recovery after an error *)

Section Recovery.

Variable Errors : ErrorsTable.

Lemma run_one (e : op) (c : Connection) :
  run Errors [e] c = (final (exec Errors e c), effects (exec Errors e c)).
Proof. cbn [run fst snd]. by rewrite app_nil_r. Qed.

(** The stream closes with notifications in the buffer, the credentials
    are there, and the new stream connects: the first notification of the
    buffer is handed to [sendNotification], and the callbacks that waited
    for the old connection are gone. *)
Lemma run_reconnect (c : Connection) (s s' : Socket) (d : Deferred)
    (n : Notification) (rest : list Notification) :
  socket c = Some s ->
  deferredConnection c = Some d ->
  notificationBuffer c = n :: rest ->
  authorized s' = true ->
  backpressured s' = false ->
  let r := run Errors [SocketClose; InitializeDone s'; TlsConnected] c in
  r.1 = {| options := options c; currentId := currentId c;
           cachedNotifications := cachedNotifications c;
           notificationBuffer := rest; socket := Some s';
           deferredConnection := Some {| d_state := Fulfilled; d_thens := [] |};
           connectionTimeout :=
             connectionTimeout c || (opt_connectionTimeout (options c) >? 0);
           q_scheduled := q_scheduled c ++ [n] |} /\
  writes r.2 = [] /\
  callbacks r.2 = [] /\
  attempts r.2 = 1%nat.
Proof.
  intros Hs Hd Hbuf Hauth Hbp. cbv zeta.
  rewrite run_cons.
  assert (exec Errors SocketClose c = restartConnection c) as ->.
  { unfold exec, listening, bind, this, skip, ret. rewrite Hs. simpl.
    by destruct (restartConnection c) as [[[a|e] c'] es]. }
  rewrite (restartConnection_run c d Hd), Hbuf, Hs.
  unfold final, effects. cbn [fst snd is_defined].
  destruct c as [o uid cached buf so dc t q]. simpl in *. subst.
  unfold run, exec, listening, initialized, tlsConnected, socketDrained,
    sendNotification, connect, q_then, q_resolve, isResolved.
  js_simpl. rewrite Hauth. simpl.
  destruct t, (opt_connectionTimeout o >? 0); js_simpl; rewrite ?Hbp;
    js_simpl; done.
Qed.

(** X17. Recovery after an error, from end to end.  An error frame names a
    cached notification; the socket is asked to close; when it has closed,
    one new attempt to connect is made; once the new stream is connected
    the notifications that were sent after the named one are written
    again, in the order in which they were sent, the first at once and
    each of the others at a 'drain'.  They are given new identifiers, from
    [currentId] on.  The callback is invoked once, for the named
    notification. *)
Theorem error_recovery_resends_in_order (c : Connection) (s s' : Socket)
    (d : Deferred) (data : Buffer.t) (status identifier : Z)
    (older newer : list Notification) (m n : Notification)
    (junk : list Z) (junks : list (list Z)) :
  socket c = Some s ->
  deferredConnection c = Some d ->
  q_scheduled c = [] ->
  notificationBuffer c = [] ->
  enhanced (options c) = true ->
  0 <= currentId c <= 0xffffffff ->
  cachedNotifications c = older ++ m :: n :: newer ->
  Forall (fun x => _uid x <> Some identifier) older ->
  _uid m = Some identifier ->
  data !! 0%nat = Some 8 ->
  data !! 1%nat = Some status ->
  Buffer.readUInt32BE 2 data = Some identifier ->
  Forall sendable (n :: newer) ->
  authorized s' = true ->
  backpressured s' = false ->
  length junks = length newer ->
  let r := run Errors
             ([SocketData data; SocketClose; InitializeDone s'; TlsConnected;
               QThen junk]
              ++ flat_map (fun j => [SocketDrain; QThen j]) junks) c in
  writes r.2 = sent_frames c (currentId c) (n :: newer) /\
  callbacks r.2 = (if errorCallback (options c) then [(status, Some m)] else []) /\
  attempts r.2 = 1%nat /\
  notificationBuffer r.1 = [] /\
  q_scheduled r.1 = [] /\
  socket r.1 = Some s'.
Proof.
  intros Hs Hd Hq Hbuf Henh Hid Hcache Hold Hm H0 H1 Hident Hall Hauth Hbp Hlen.
  cbv zeta.
  change ([SocketData data; SocketClose; InitializeDone s'; TlsConnected;
           QThen junk] ++ flat_map (fun j => [SocketDrain; QThen j]) junks)
    with ([SocketData data] ++ [SocketClose; InitializeDone s'; TlsConnected]
          ++ [QThen junk] ++ flat_map (fun j => [SocketDrain; QThen j]) junks).
  rewrite (run_app Errors [SocketData data]), run_one.
  rewrite exec_SocketData, Hs. cbn [is_defined].
  rewrite (handleTransmissionError_run Errors data c status identifier) by done.
  rewrite Hcache, scan_found.
  2: { eapply Forall_impl; [exact Hold|]. intros x. by rewrite uid_is_false. }
  2: { by apply uid_is_true. }
  unfold final, effects. cbn [fst snd]. rewrite Hbuf, (app_nil_l (n :: newer)).
  set (c1 := with_notificationBuffer (n :: newer) (with_cachedNotifications [] c)).
  rewrite (run_app Errors [SocketClose; InitializeDone s'; TlsConnected]).
  assert (socket c1 = Some s) as Hs1 by (by destruct c).
  assert (deferredConnection c1 = Some d) as Hd1 by (by destruct c).
  assert (notificationBuffer c1 = n :: newer) as Hb1 by (by destruct c).
  destruct (run_reconnect c1 s s' d n newer Hs1 Hd1 Hb1 Hauth Hbp)
    as (Hc2 & Hw2 & Hcb2 & Hatt2).
  cbn [fst snd].
  revert Hc2 Hw2 Hcb2 Hatt2.
  generalize (run Errors [SocketClose; InitializeDone s'; TlsConnected] c1).
  intros [c2 es2]. cbn [fst snd]. intros -> Hw2 Hcb2 Hatt2.
  set (c2 := mkConnection _ _ _ _ _ _ _ _).
  inversion Hall as [|? ? Hn Hnewer]; subst.
  rewrite (run_app Errors [QThen junk]), run_one.
  assert (q_scheduled c2 = [n]) as Hq2.
  { subst c2 c1. destruct c. simpl in *. by subst. }
  assert (currentId c2 = currentId c) as Hid2 by (by destruct c).
  assert (options c2 = options c) as Hopt2 by (by destruct c).
  rewrite (exec_QThen_sends Errors junk c2 s' n [])
    by (try done; by rewrite Hid2).
  unfold final, effects. cbn [fst snd].
  destruct (after_send_fields (with_q_scheduled [] c2) n)
    as (Hs3 & Hd3 & Hq3 & Hb3 & Ho3 & Hi3).
  destruct (run_drains Errors newer junks (after_send (with_q_scheduled [] c2) n)
              s' {| d_state := Fulfilled; d_thens := [] |} [])
    as (Hw & Hcb & Hatt & Hqf & Hbf & Hsf); try done.
  { by rewrite Hb3, app_nil_r. }
  { rewrite Hi3. apply next_id_range. simpl. lia. }
  rewrite !writes_app, !callbacks_app, !attempts_app.
  rewrite Hw, Hcb, Hatt, Hw2, Hcb2, Hatt2, Hqf, Hbf, Hsf, Hi3.
  rewrite (sent_frames_options _ c) by (rewrite Ho3; exact Hopt2).
  cbn [sent_frames]. unfold frame_of. rewrite Hopt2, Hs.
  change (currentId (with_q_scheduled [] c2)) with (currentId c2).
  rewrite Hid2.
  destruct (errorCallback (options c)); simpl; by repeat split.
Qed.

End Recovery.

(** ** Attempts that come to nothing *)

Section LostAttempts.

Variable Errors : ErrorsTable.

(** X18. When the stream closes before it is connected, the notifications
    that waited for the connection are lost without a trace: the promise
    is rejected, no callback is invoked, nothing is written or buffered, no
    new attempt is started, and the fields the connection logic uses are
    as [new Connection] left them. *)
Theorem close_before_connect_forgets_submissions (o : Options) (s : Socket)
    (n : Notification) (ns : list Notification) (closing : op) :
  closing = SocketEnd \/ closing = SocketClose ->
  run Errors
    (map CallSendNotification (n :: ns) ++ [InitializeDone s; closing])
    (new_Connection o) =
  (new_Connection o, [EvInitialize; EvTlsConnect; EvRemoveAllListeners]).
Proof.
  intros Hclosing.
  rewrite run_app, run_calls_new. cbn [fst snd].
  destruct Hclosing as [-> | ->]; reflexivity.
Qed.

End LostAttempts.

(** ** The idle timer *)

Section IdleTimer.

Variable Errors : ErrorsTable.

Lemma timers_armed_app (es1 es2 : list event) :
  timers_armed (es1 ++ es2) = (timers_armed es1 + timers_armed es2)%nat.
Proof.
  induction es1 as [|e es1 IH]; [done|]. destruct e; simpl; by rewrite ?IH.
Qed.

Lemma handleTransmissionError_no_timer (data : Buffer.t) (c : Connection) :
  timers_armed (effects (handleTransmissionError Errors data c)) = 0%nat.
Proof.
  destruct (data !! 0%nat) as [command|] eqn:H0.
  2: { unfold handleTransmissionError. by rewrite H0. }
  destruct (Z.eqb_spec command 8) as [->|Hne].
  2: { unfold handleTransmissionError. rewrite H0.
       apply Z.eqb_neq in Hne. by rewrite Hne. }
  destruct (enhanced (options c)) eqn:Henh.
  2: { unfold handleTransmissionError. rewrite H0. js_simpl. by rewrite Henh. }
  destruct (Buffer.readUInt32BE 2 data) as [identifier|] eqn:Hid.
  2: { unfold handleTransmissionError. rewrite H0, Hid. js_simpl.
       by rewrite Henh. }
  destruct (data !! 1%nat) as [status|] eqn:H1.
  2: { unfold handleTransmissionError. rewrite H0, H1, Hid. js_simpl.
       by rewrite Henh. }
  rewrite (handleTransmissionError_run Errors data c status identifier) by done.
  destruct (scan identifier (cachedNotifications c) [] None)
    as [[[found m] cached] temp].
  unfold effects. simpl. rewrite timers_armed_app.
  by destruct (errorCallback (options c)), found, (is_defined (socket c)).
Qed.

Ltac split_step :=
  match goal with
  | |- context [match ?x with _ => _ end] =>
      lazymatch x with
      | context [match _ with _ => _ end] => fail
      | _ => destruct x eqn:?; simpl in *
      end
  end.

(** X19. The idle timer is armed in one place only: the callback of
    [tls.connect], when the peer is authorized and [connectionTimeout] is
    positive, and then once.  Nothing else arms it: a notification that is
    sent, a 'drain' or data that arrives do not postpone the timeout. *)
Theorem idle_timer_is_armed_on_connect_only (e : op) (c : Connection) :
  timers_armed (effects (exec Errors e c)) =
  match e, socket c with
  | TlsConnected, Some s =>
      if authorized s && (opt_connectionTimeout (options c) >? 0)
      then 1%nat else 0%nat
  | _, _ => 0%nat
  end.
Proof.
  destruct e as [n|junk|s| | |data| | | | | |size w].
  - unfold exec, sendNotification, connect, q_then.
    destruct c as [o uid cached buf so dc t q]. js_simpl.
    repeat split_step; done.
  - destruct (q_scheduled c) as [|n rest] eqn:Hq.
    { unfold exec. js_simpl. by rewrite Hq. }
    rewrite (exec_QThen Errors junk c n rest Hq).
    apply sendNotification_then_no_timer.
  - unfold exec, initialized, isResolved.
    destruct c as [o uid cached buf so dc t q]. js_simpl.
    repeat split_step; done.
  - unfold exec, q_reject.
    destruct c as [o uid cached buf so dc t q]. js_simpl.
    repeat split_step; done.
  - unfold exec, listening, tlsConnected, socketDrained, sendNotification,
      connect, q_then, q_resolve, q_reject.
    destruct c as [o uid cached buf so dc t q]. js_simpl.
    destruct so as [s|]; [|done]. simpl.
    destruct (authorized s); simpl; [|repeat split_step; done].
    destruct (opt_connectionTimeout o >? 0); simpl;
      repeat split_step; done.
  - rewrite exec_SocketData.
    destruct (is_defined (socket c)); [|done].
    apply handleTransmissionError_no_timer.
  - unfold exec, listening, socketDrained, sendNotification, connect, q_then.
    destruct c as [o uid cached buf so dc t q]. js_simpl.
    repeat split_step; done.
  - unfold exec, listening, destroyConnection.
    destruct c as [o uid cached buf so dc t q]. js_simpl.
    repeat split_step; done.
  - unfold exec, listening, restartConnection, connect, q_reject, isResolved.
    destruct c as [o uid cached buf so dc t q]. js_simpl.
    repeat split_step; done.
  - unfold exec, listening, restartConnection, connect, q_reject, isResolved.
    destruct c as [o uid cached buf so dc t q]. js_simpl.
    repeat split_step; done.
  - unfold exec, destroyConnection.
    destruct c as [o uid cached buf so dc t q]. js_simpl.
    repeat split_step; done.
  - unfold exec.
    destruct c as [o uid cached buf so dc t q]. js_simpl.
    repeat split_step; done.
Qed.

End IdleTimer.

(** ** Sample runs of the further properties *)

Lemma sample_sendable (k : nat) : (k <= 255)%nat -> sendable (sample k).
Proof.
  intros Hk. exists sample_token. simpl. rewrite length_replicate.
  repeat split; try lia; vm_compute; discriminate.
Qed.

Lemma sent_sendable (uid : Z) : sendable (sent uid).
Proof.
  exists sample_token. repeat split; vm_compute; discriminate.
Qed.

Lemma initialize_fulfils_when_both_present_witness :
  Credentials.initialize
    (Credentials.fresh (Some (Credentials.Bytes [48]))
       (Some (Credentials.Text [45]))) =
  (Normal tt,
   Credentials.with_deferredInitialize (Some Fulfilled)
     (Credentials.with_keyData (Some (Credentials.Text [45]))
        (Credentials.with_certData (Some (Credentials.Bytes [48]))
           (Credentials.fresh (Some (Credentials.Bytes [48]))
              (Some (Credentials.Text [45]))))),
   []) /\
  (let data h := match h with Credentials.Cert => [45] | Credentials.Key => [46] end in
   let first :=
     Credentials.run [Credentials.CallInitialize;
                      Credentials.FileRead Credentials.Key
                        (Some (data Credentials.Key))]
       (Credentials.start (Credentials.fresh None None)) in
   let both :=
     Credentials.run [Credentials.FileRead Credentials.Cert
                        (Some (data Credentials.Cert))] first.1 in
   first.2 = [Credentials.Cert; Credentials.Key] /\
   Credentials.deferredInitialize (Credentials.object first.1) = Some Pending /\
   both.2 = [] /\
   Credentials.deferredInitialize (Credentials.object both.1) = Some Fulfilled /\
   Credentials.certData (Credentials.object both.1) = Some (Credentials.Text [45]) /\
   Credentials.keyData (Credentials.object both.1) = Some (Credentials.Text [46])).
Proof.
  destruct initialize_fulfils_when_both_present as [Hgiven Hread].
  split.
  - exact (Hgiven (Some (Credentials.Bytes [48])) (Some (Credentials.Text [45]))
             eq_refl eq_refl).
  - apply (Hread None None [45] [46] Credentials.Key Credentials.Cert).
    + reflexivity.
    + reflexivity.
    + discriminate.
    + discriminate.
    + right. split; reflexivity.
Defined.

Lemma initialize_promise_tells_presence_witness :
  let k := Credentials.object
             (Credentials.run
                [Credentials.CallInitialize;
                 Credentials.FileRead Credentials.Cert (Some []);
                 Credentials.FileRead Credentials.Key (Some [46])]
                (Credentials.start (Credentials.fresh None None))).1 in
  Credentials.deferredInitialize k = Some Pending /\
  (Credentials.truthy (Credentials.certData k) = false \/
   Credentials.truthy (Credentials.keyData k) = false).
Proof.
  cbv zeta.
  assert (Credentials.deferredInitialize
            (Credentials.object
               (Credentials.run
                  [Credentials.CallInitialize;
                   Credentials.FileRead Credentials.Cert (Some []);
                   Credentials.FileRead Credentials.Key (Some [46])]
                  (Credentials.start (Credentials.fresh None None))).1)
          = Some Pending) as Hpending by (vm_compute; reflexivity).
  split; [exact Hpending|].
  exact (proj1 (proj2 (initialize_promise_tells_presence None None
                         [Credentials.CallInitialize;
                          Credentials.FileRead Credentials.Cert (Some []);
                          Credentials.FileRead Credentials.Key (Some [46])]))
           Hpending).
Defined.

Lemma failed_read_is_final_witness :
  let w := (Credentials.exec Credentials.CallInitialize
              (Credentials.start (Credentials.fresh None None))).1 in
  let failed :=
    (Credentials.exec (Credentials.FileRead Credentials.Cert None) w).1 in
  let after :=
    Credentials.run [Credentials.CallInitialize;
                     Credentials.FileRead Credentials.Key (Some [46])] failed in
  Credentials.deferredInitialize (Credentials.object failed) = Some Rejected /\
  Credentials.deferredInitialize (Credentials.object after.1) = Some Rejected /\
  after.2 = [].
Proof.
  apply (failed_read_is_final
           (Credentials.exec Credentials.CallInitialize
              (Credentials.start (Credentials.fresh None None))).1
           Credentials.Cert
           [Credentials.CallInitialize;
            Credentials.FileRead Credentials.Key (Some [46])]).
  - vm_compute. reflexivity.
  - vm_compute. reflexivity.
Defined.

Lemma files_read_at_most_once_witness :
  let reads :=
    (Credentials.run [Credentials.CallInitialize; Credentials.CallInitialize]
       (Credentials.start
          (Credentials.fresh None (Some (Credentials.Bytes [48]))))).2 in
  reads = [Credentials.Cert] /\ NoDup reads /\ Credentials.truthy None = false.
Proof.
  cbv zeta.
  assert ((Credentials.run [Credentials.CallInitialize; Credentials.CallInitialize]
             (Credentials.start
                (Credentials.fresh None (Some (Credentials.Bytes [48]))))).2
          = [Credentials.Cert]) as Hreads by (vm_compute; reflexivity).
  destruct (files_read_at_most_once None (Some (Credentials.Bytes [48]))
              [Credentials.CallInitialize; Credentials.CallInitialize])
    as (Hnodup & Hcert & _).
  split; [exact Hreads|]. split; [exact Hnodup|].
  apply Hcert. rewrite Hreads. left.
Defined.

Lemma incomplete_frame_changes_nothing_witness :
  handleTransmissionError apn_errors [7; 1] sample_cache
    = (Normal tt, sample_cache, []) /\
  handleTransmissionError apn_errors [8; 8; 0] sample_cache
    = (Throws AssertionError, sample_cache, []).
Proof.
  split.
  - apply (proj1 (incomplete_frame_changes_nothing apn_errors sample_cache [7; 1])).
    discriminate.
  - apply (proj2 (incomplete_frame_changes_nothing apn_errors sample_cache
                    [8; 8; 0])).
    + reflexivity.
    + reflexivity.
    + simpl. lia.
Defined.

Lemma error_frame_replays_a_suffix_witness :
  let r := handleTransmissionError apn_errors [8; 8; 0; 0; 0; 7] sample_cache in
  cachedNotifications (final r) = [] /\
  (exists k, notificationBuffer (final r)
             = notificationBuffer sample_cache
               ++ drop k (cachedNotifications sample_cache)) /\
  writes (effects r) = [] /\
  length (callbacks (effects r)) = 1%nat.
Proof.
  destruct (error_frame_replays_a_suffix apn_errors sample_cache
              [8; 8; 0; 0; 0; 7] 8 7 eq_refl eq_refl eq_refl eq_refl)
    as (_ & Hcache & Hsuffix & _ & Hwrites & _ & _ & Hcallbacks & _).
  split; [exact Hcache|]. split; [exact Hsuffix|]. split; [exact Hwrites|].
  exact Hcallbacks.
Defined.

Lemma sent_notification_is_reported_witness :
  let c := sample_cache in
  let sent := sendNotification_then apn_errors [] (sample 20) c in
  let r := handleTransmissionError apn_errors
             ([8; 8] ++ big_endian 4 (currentId c)) (final sent) in
  (exists frame,
     writes (effects sent) = [frame] /\
     Buffer.readUInt32BE 1 frame = Some (currentId c)) /\
  result r = Normal tt /\
  callbacks (effects r) = [(8, Some (set_uid (currentId c) (sample 20)))] /\
  cachedNotifications (final r) = [] /\
  notificationBuffer (final r) = notificationBuffer c.
Proof.
  apply (sent_notification_is_reported apn_errors sample_cache open_socket []
           (sample 20) sample_token 8).
  - reflexivity.
  - reflexivity.
  - reflexivity.
  - vm_compute. discriminate.
  - vm_compute. discriminate.
  - split; vm_compute; discriminate.
  - split; vm_compute; discriminate.
  - reflexivity.
  - reflexivity.
  - vm_compute. discriminate.
  - repeat constructor; intros H; discriminate H.
  - intros H.
    repeat (apply elem_of_cons in H as [H|H];
            [apply (f_equal _uid) in H; discriminate H|]).
    by apply elem_of_nil in H.
  - intros H. by apply elem_of_nil in H.
Defined.

Lemma bad_expiry_uses_up_an_identifier_witness :
  let c := connected sample_options open_socket in
  let r := sendNotification_then apn_errors [] far_expiry c in
  result r = Throws AssertionError /\
  assigned_uids (effects r) = [currentId c] /\
  currentId (final r) = next_id (currentId c) /\
  writes (effects r) = [] /\
  callbacks (effects r) = [] /\
  cachedNotifications (final r) = cachedNotifications c /\
  notificationBuffer (final r) = notificationBuffer c.
Proof.
  apply (bad_expiry_uses_up_an_identifier apn_errors
           (connected sample_options open_socket) open_socket []
           far_expiry sample_token).
  - reflexivity.
  - reflexivity.
  - reflexivity.
  - vm_compute. discriminate.
  - split; vm_compute; discriminate.
  - reflexivity.
  - intros [_ Hle]. exact (Hle eq_refl).
Defined.


Lemma only_frames_are_written_witness :
  let frame := enhanced_frame 0 0 sample_token (message (sample 20)) in
  writes (run apn_errors one_send (new_Connection sample_options)).2 = [frame] /\
  head frame = Some 1.
Proof.
  cbv zeta.
  assert (writes (run apn_errors one_send (new_Connection sample_options)).2
          = [enhanced_frame 0 0 sample_token (message (sample 20))]) as Hwrites
    by (vm_compute; reflexivity).
  split; [exact Hwrites|].
  apply (only_frames_are_written apn_errors sample_options one_send).
  rewrite Hwrites. left.
Defined.

Lemma simple_variant_ignores_data_witness :
  let c := (run apn_errors one_send (new_Connection simple_options)).1 in
  cachedNotifications c = [] /\
  exec apn_errors (SocketData [8; 8; 0; 0; 0; 0]) c = (Normal tt, c, []).
Proof.
  exact (simple_variant_ignores_data apn_errors simple_options one_send
           [8; 8; 0; 0; 0; 0] eq_refl).
Defined.

Lemma listeners_do_not_throw_witness :
  result (exec apn_errors (SocketData [8; 8; 0; 0; 0; 1])
            (run apn_errors three_sends (new_Connection sample_options)).1)
  = Normal tt.
Proof.
  apply (listeners_do_not_throw apn_errors sample_options three_sends
           (SocketData [8; 8; 0; 0; 0; 1])).
  - intros junk H. discriminate H.
  - intros data H. injection H as <-. simpl. lia.
Defined.

Lemma credential_failure_is_permanent_witness :
  let c := final (exec apn_errors InitializeFailed connecting) in
  let r := run apn_errors
             [CallSendNotification (sample 21); QThen []; SocketClose;
              InitializeDone open_socket] c in
  failed_for_good c /\
  failed_for_good r.1 /\
  r.2 = [] /\
  cachedNotifications r.1 = cachedNotifications connecting /\
  notificationBuffer r.1 = notificationBuffer connecting.
Proof.
  exact (credential_failure_is_permanent apn_errors connecting
           {| d_state := Pending; d_thens := [sample 20] |}
           [CallSendNotification (sample 21); QThen []; SocketClose;
            InitializeDone open_socket]
           eq_refl eq_refl eq_refl).
Defined.

Lemma submissions_are_sent_in_order_witness :
  let r := run apn_errors
             (map CallSendNotification [sample 20; sample 21; sample 22]
              ++ [InitializeDone open_socket; TlsConnected]
              ++ map QThen [[]; []; []])
             (new_Connection sample_options) in
  writes r.2 = sent_frames (new_Connection sample_options) 0
                 [sample 20; sample 21; sample 22] /\
  callbacks r.2 = [] /\
  attempts r.2 = 1%nat /\
  q_scheduled r.1 = [] /\
  notificationBuffer r.1 = [] /\
  deferredConnection r.1 = Some {| d_state := Fulfilled; d_thens := [] |}.
Proof.
  apply (submissions_are_sent_in_order apn_errors sample_options open_socket
           (sample 20) [sample 21; sample 22] [[]; []; []]).
  - repeat constructor; apply sample_sendable; lia.
  - reflexivity.
  - reflexivity.
  - reflexivity.
Defined.

Lemma unauthorized_peer_loses_submissions_witness :
  run apn_errors
    (map CallSendNotification [sample 20; sample 21]
     ++ [InitializeDone untrusted_socket; TlsConnected]
     ++ map CallSendNotification [sample 22] ++ map QThen [[]; []; []])
    (new_Connection sample_options) =
  (with_deferredConnection (Some {| d_state := Rejected; d_thens := [] |})
     (with_socket (Some untrusted_socket) (new_Connection sample_options)),
   [EvInitialize; EvTlsConnect]).
Proof.
  exact (unauthorized_peer_loses_submissions apn_errors sample_options
           untrusted_socket (sample 20) [sample 21] [sample 22] [[]; []; []]
           eq_refl).
Defined.

Lemma buffer_is_drained_in_order_witness :
  let r := run apn_errors
             (flat_map (fun j => [SocketDrain; QThen j]) [[]; []]) backlog in
  writes r.2 = sent_frames backlog (currentId backlog)
                 (notificationBuffer backlog) /\
  callbacks r.2 = [] /\
  attempts r.2 = 0%nat /\
  notificationBuffer r.1 = [] /\
  q_scheduled r.1 = [].
Proof.
  apply (buffer_is_drained_in_order apn_errors backlog open_socket
           {| d_state := Fulfilled; d_thens := [] |} [[]; []]).
  - reflexivity.
  - reflexivity.
  - reflexivity.
  - reflexivity.
  - reflexivity.
  - repeat constructor; apply sample_sendable; lia.
  - reflexivity.
  - split; vm_compute; discriminate.
Defined.

Lemma error_recovery_resends_in_order_witness :
  let r := run apn_errors
             ([SocketData [8; 8; 0; 0; 0; 6]; SocketClose;
               InitializeDone open_socket; TlsConnected; QThen []]
              ++ flat_map (fun j => [SocketDrain; QThen j]) [[]])
             sample_cache in
  writes r.2 = sent_frames sample_cache (currentId sample_cache)
                 [sent 7; sent 8] /\
  callbacks r.2 = [(8, Some (sent 6))] /\
  attempts r.2 = 1%nat /\
  notificationBuffer r.1 = [] /\
  q_scheduled r.1 = [] /\
  socket r.1 = Some open_socket.
Proof.
  apply (error_recovery_resends_in_order apn_errors sample_cache open_socket
           open_socket {| d_state := Fulfilled; d_thens := [] |}
           [8; 8; 0; 0; 0; 6] 8 6 [sent 5] [sent 8] (sent 6) (sent 7) [] [[]]).
  - reflexivity.
  - reflexivity.
  - reflexivity.
  - reflexivity.
  - reflexivity.
  - split; vm_compute; discriminate.
  - reflexivity.
  - repeat constructor. intros H. discriminate H.
  - reflexivity.
  - reflexivity.
  - reflexivity.
  - reflexivity.
  - repeat constructor; apply sent_sendable.
  - reflexivity.
  - reflexivity.
  - reflexivity.
Defined.

Lemma close_before_connect_forgets_submissions_witness :
  run apn_errors
    (map CallSendNotification [sample 20; sample 21]
     ++ [InitializeDone open_socket; SocketClose])
    (new_Connection sample_options) =
  (new_Connection sample_options,
   [EvInitialize; EvTlsConnect; EvRemoveAllListeners]).
Proof.
  exact (close_before_connect_forgets_submissions apn_errors sample_options
           open_socket (sample 20) [sample 21] SocketClose
           (or_intror eq_refl)).
Defined.
